(** * OmniVoice: the primary/fallback clients of packages [stt] and [tts]

    A shallow embedding of the two orchestration clients of the
    repository ([stt.Client] and [tts.Client]) and of the provider
    interfaces they dispatch to, followed by the properties of the
    fallback policy.

    Providers are external, stateful collaborators.  A provider method is
    embedded as a function on an arbitrary state [S] of the outside world
    (the providers' private state, the clock that drives the caller's
    context).  On top of [S] the embedding keeps a call log, the view a
    call-counting stub provider has of the client: one entry per method
    the client invokes on a provider, in invocation order. *)

From Stdlib Require Import ZArith.
From Stdlib.Floats Require Import SpecFloat.
From Stdlib.Strings Require Import Byte.
From stdpp Require Import gmap strings list fin_maps.

Local Open Scope string_scope.
Local Open Scope list_scope.

(** ** Go values shared by both packages *)

(** Values of Go's [error] interface.  The package-level variables built
    with [errors.New] are [Sentinel]s, told apart by their text (the
    texts of the repository's sentinels are pairwise distinct); the two
    errors of package [context]; and whatever error type a vendor
    integration defines for itself. *)
Inductive error : Type :=
  | Sentinel (text : string)
  | Canceled
  | DeadlineExceeded
  | VendorError (vendor : string) (text : string).

(** [err.Error()] *)
Definition Error (e : error) : string :=
  match e with
  | Sentinel text => text
  | Canceled => "context canceled"
  | DeadlineExceeded => "context deadline exceeded"
  | VendorError _ text => text
  end.

(** The provider methods the clients invoke. *)
Inductive Method : Type :=
  | MTranscribe
  | MTranscribeStream
  | MSynthesize
  | MSynthesizeStream.

(** One entry of the call log: the registry key under which the provider
    was resolved, and the method invoked on it. *)
Record Call : Type := mkCall { callee : string; method : Method }.

#[global] Instance Method_eq_dec : EqDecision Method.
Proof. solve_decision. Defined.

#[global] Instance Call_eq_dec : EqDecision Call.
Proof. solve_decision. Defined.

(** [time.Duration]: a signed 64-bit count of nanoseconds. *)
Definition Duration : Type := Z.

(** [float64]: an IEEE 754 value, as sign, mantissa and exponent. *)
Definition float64 : Type := spec_float.

Definition float64_zero : float64 := S754_zero false.
Definition float64_one : float64 := S754_finite false 4503599627370496 (-52).
Definition float64_half : float64 := S754_finite false 4503599627370496 (-53).

(** A reference to an [io.WriteCloser] and to the receiving end of a
    channel: both are handles, compared by identity. *)
Record WriteCloser : Type := mkWriteCloser { wc_id : nat }.
Record RecvChan (A : Type) : Type := mkRecvChan { ch_id : nat }.
Arguments mkRecvChan {A} _.
Arguments ch_id {A} _.

Section World.
Context {S : Type}.

(** The outside world together with the call log. *)
Record World : Type := mkWorld { ext : S; calls : list Call }.

(** [context.Context], as far as cancellation goes: [ctx.Err()] reads
    the world (it is nil until the context is cancelled or its
    deadline passes). *)
Record Context : Type := mkContext { ctx_Err : S -> option error }.

(** [context.Background()] is never cancelled. *)
Definition Background : Context := {| ctx_Err := fun _ => None |}.

(** A method call [p.m(...)] made by a client on the provider resolved
    under [name]: the provider runs on the outside world, and the call
    is appended to the log. *)
Definition invoke {R : Type} (name : string) (m : Method)
    (f : S -> R * S) (w : World) : R * World :=
  let '(r, s') := f (ext w) in
  (r, {| ext := s'; calls := calls w ++ [mkCall name m] |}).
End World.

Arguments World : clear implicits.
Arguments Context : clear implicits.

(** ** Package [stt] *)

Module stt.

(** The sentinel errors of the package. *)
Definition ErrNoAvailableProvider : error := Sentinel "stt: no available provider".
Definition ErrStreamingNotSupported : error :=
  Sentinel "stt: streaming not supported by any provider".
Definition ErrInvalidAudio : error := Sentinel "stt: invalid audio data".
Definition ErrInvalidConfig : error := Sentinel "stt: invalid configuration".
Definition ErrAudioTooLong : error := Sentinel "stt: audio too long".
Definition ErrAudioTooShort : error := Sentinel "stt: audio too short".
Definition ErrRateLimited : error := Sentinel "stt: rate limited".
Definition ErrQuotaExceeded : error := Sentinel "stt: quota exceeded".
Definition ErrUnsupportedLanguage : error := Sentinel "stt: unsupported language".
Definition ErrUnsupportedFormat : error := Sentinel "stt: unsupported audio format".
Definition ErrStreamClosed : error := Sentinel "stt: stream closed".

Record TranscriptionConfig : Type := mkTranscriptionConfig {
  Language : string;
  Model : string;
  SampleRate : Z;
  Channels : Z;
  Encoding : string;
  EnablePunctuation : bool;
  EnableWordTimestamps : bool;
  EnableSpeakerDiarization : bool;
  MaxSpeakers : Z;
  Keywords : list string;
  VocabularyID : string
}.

Record Word : Type := mkWord {
  Word_Text : string;
  Word_StartTime : Duration;
  Word_EndTime : Duration;
  Word_Confidence : float64;
  Word_Speaker : string
}.

Record Segment : Type := mkSegment {
  Segment_Text : string;
  Segment_StartTime : Duration;
  Segment_EndTime : Duration;
  Segment_Confidence : float64;
  Segment_Speaker : string;
  Segment_Words : list Word;
  Segment_Language : string
}.

Record TranscriptionResult : Type := mkTranscriptionResult {
  Result_Text : string;
  Result_Segments : list Segment;
  Result_Language : string;
  Result_LanguageConfidence : float64;
  Result_Duration : Duration
}.

Inductive StreamEventType : Type :=
  | EventTranscript
  | EventSpeechStart
  | EventSpeechEnd
  | EventError.

Record StreamEvent : Type := mkStreamEvent {
  Event_Type : StreamEventType;
  Event_Transcript : string;
  Event_IsFinal : bool;
  Event_Segment : option Segment;
  Event_SpeechStarted : bool;
  Event_SpeechEnded : bool;
  Event_Error : option error
}.

Section Client.
Context {S : Type}.

(** What a batch method returns: a pointer to a [TranscriptionResult]
    and an [error].  Either component may be nil. *)
Definition BatchReturn : Type := option TranscriptionResult * option error.

(** What [TranscribeStream] returns:
    [(io.WriteCloser, <-chan StreamEvent, error)]. *)
Definition StreamReturn : Type :=
  option WriteCloser * option (RecvChan StreamEvent) * option error.

(** A value of interface type [Provider].  [Name] is the provider's
    stable name: the same string at every call.  The other methods run
    on the outside world.  [TranscribeStream] is the method of
    [StreamingProvider]: it is [Some] exactly when the dynamic type of
    the value has that method, which is when the type assertion
    [p.(StreamingProvider)] succeeds. *)
Record Provider : Type := mkProvider {
  Name : string;
  Transcribe : Context S -> list byte -> TranscriptionConfig -> S -> BatchReturn * S;
  TranscribeFile : Context S -> string -> TranscriptionConfig -> S -> BatchReturn * S;
  TranscribeURL : Context S -> string -> TranscriptionConfig -> S -> BatchReturn * S;
  TranscribeStream : option (Context S -> TranscriptionConfig -> S -> StreamReturn * S)
}.

Record Client : Type := mkClient {
  providers : gmap string Provider;
  primary : string;
  fallbacks : list string
}.

(** The body of the loop of [NewClient], from index [i] on. *)
Fixpoint NewClient_range (i : nat) (ps : list Provider) (c : Client) : Client :=
  match ps with
  | [] => c
  | p :: ps' =>
      let registered := <[Name p := p]> (providers c) in
      NewClient_range (Datatypes.S i) ps'
        (if Nat.eqb i 0
         then {| providers := registered; primary := Name p; fallbacks := fallbacks c |}
         else {| providers := registered; primary := primary c;
                 fallbacks := fallbacks c ++ [Name p] |})
  end.

Definition NewClient (ps : list Provider) : Client :=
  NewClient_range 0 ps {| providers := ∅; primary := ""; fallbacks := [] |}.

Definition Client_SetPrimary (c : Client) (name : string) : Client :=
  {| providers := providers c; primary := name; fallbacks := fallbacks c |}.

Definition Client_SetFallbacks (c : Client) (names : list string) : Client :=
  {| providers := providers c; primary := primary c; fallbacks := names |}.

(** [c.Provider(name)]: the pair [(p, ok)] as an option. *)
Definition Client_Provider (c : Client) (name : string) : option Provider :=
  providers c !! name.

(** The [for _, name := range c.fallbacks] loop of [Transcribe],
    followed by the final [return nil, ErrNoAvailableProvider]. *)
Fixpoint Transcribe_fallbacks (c : Client) (ctx : Context S) (audio : list byte)
    (config : TranscriptionConfig) (names : list string) (w : World S)
    : BatchReturn * World S :=
  match names with
  | [] => ((None, Some ErrNoAvailableProvider), w)
  | name :: names' =>
      match providers c !! name with
      | Some p =>
          let '((result, err), w') :=
            invoke name MTranscribe (Transcribe p ctx audio config) w in
          match err with
          | None => ((result, None), w')
          | Some _ => Transcribe_fallbacks c ctx audio config names' w'
          end
      | None => Transcribe_fallbacks c ctx audio config names' w
      end
  end.

Definition Client_Transcribe (c : Client) (ctx : Context S) (audio : list byte)
    (config : TranscriptionConfig) (w : World S) : BatchReturn * World S :=
  match providers c !! primary c with
  | Some p =>
      let '((result, err), w') :=
        invoke (primary c) MTranscribe (Transcribe p ctx audio config) w in
      match err with
      | None => ((result, None), w')
      | Some _ => Transcribe_fallbacks c ctx audio config (fallbacks c) w'
      end
  | None => Transcribe_fallbacks c ctx audio config (fallbacks c) w
  end.

(** The fallback loop of [TranscribeStream], followed by the final
    [return nil, nil, ErrStreamingNotSupported]. *)
Fixpoint TranscribeStream_fallbacks (c : Client) (ctx : Context S)
    (config : TranscriptionConfig) (names : list string) (w : World S)
    : StreamReturn * World S :=
  match names with
  | [] => ((None, None, Some ErrStreamingNotSupported), w)
  | name :: names' =>
      match providers c !! name with
      | Some p =>
          match TranscribeStream p with
          | Some sp_TranscribeStream =>
              invoke name MTranscribeStream (sp_TranscribeStream ctx config) w
          | None => TranscribeStream_fallbacks c ctx config names' w
          end
      | None => TranscribeStream_fallbacks c ctx config names' w
      end
  end.

Definition Client_TranscribeStream (c : Client) (ctx : Context S)
    (config : TranscriptionConfig) (w : World S) : StreamReturn * World S :=
  match providers c !! primary c with
  | Some p =>
      match TranscribeStream p with
      | Some sp_TranscribeStream =>
          invoke (primary c) MTranscribeStream (sp_TranscribeStream ctx config) w
      | None => TranscribeStream_fallbacks c ctx config (fallbacks c) w
      end
  | None => TranscribeStream_fallbacks c ctx config (fallbacks c) w
  end.
End Client.

Arguments Provider : clear implicits.
Arguments Client : clear implicits.
End stt.

(** ** Package [tts] *)

Module tts.

(** The sentinel errors of the package.  There is no
    streaming-not-supported error here. *)
Definition ErrNoAvailableProvider : error := Sentinel "tts: no available provider".
Definition ErrVoiceNotFound : error := Sentinel "tts: voice not found".
Definition ErrInvalidConfig : error := Sentinel "tts: invalid configuration".
Definition ErrRateLimited : error := Sentinel "tts: rate limited".
Definition ErrQuotaExceeded : error := Sentinel "tts: quota exceeded".
Definition ErrStreamClosed : error := Sentinel "tts: stream closed".

Record SynthesisConfig : Type := mkSynthesisConfig {
  VoiceID : string;
  Model : string;
  OutputFormat : string;
  SampleRate : Z;
  Speed : float64;
  Pitch : float64;
  Stability : float64;
  SimilarityBoost : float64
}.

Record SynthesisResult : Type := mkSynthesisResult {
  Result_Audio : list byte;
  Result_Format : string;
  Result_SampleRate : Z;
  Result_DurationMs : Z;
  Result_CharacterCount : Z
}.

Record StreamChunk : Type := mkStreamChunk {
  Chunk_Audio : list byte;
  Chunk_IsFinal : bool;
  Chunk_Error : option error
}.

(** A reference to an [io.Reader]. *)
Record Reader : Type := mkReader { rd_id : nat }.

Section Client.
Context {S : Type}.

(** What [Synthesize] returns: a pointer to a [SynthesisResult] and
    an [error]. *)
Definition BatchReturn : Type := option SynthesisResult * option error.

(** What [SynthesizeStream] returns: a channel and an [error]. *)
Definition StreamReturn : Type := option (RecvChan StreamChunk) * option error.

(** A value of interface type [Provider].  [Name] is the provider's
    stable name.  [SynthesizeStream] belongs to the base interface, so
    every provider has it.
    [SynthesizeFromReader] is the method of [StreamingProvider],
    [Some] exactly when the dynamic type has it; no client method
    asks for it.  [ListVoices] and [GetVoice], which no client method
    calls either, are left out. *)
Record Provider : Type := mkProvider {
  Name : string;
  Synthesize : Context S -> string -> SynthesisConfig -> S -> BatchReturn * S;
  SynthesizeStream : Context S -> string -> SynthesisConfig -> S -> StreamReturn * S;
  SynthesizeFromReader :
    option (Context S -> Reader -> SynthesisConfig -> S -> StreamReturn * S)
}.

Record Client : Type := mkClient {
  providers : gmap string Provider;
  primary : string;
  fallbacks : list string
}.

(** The body of the loop of [NewClient], from index [i] on. *)
Fixpoint NewClient_range (i : nat) (ps : list Provider) (c : Client) : Client :=
  match ps with
  | [] => c
  | p :: ps' =>
      let registered := <[Name p := p]> (providers c) in
      NewClient_range (Datatypes.S i) ps'
        (if Nat.eqb i 0
         then {| providers := registered; primary := Name p; fallbacks := fallbacks c |}
         else {| providers := registered; primary := primary c;
                 fallbacks := fallbacks c ++ [Name p] |})
  end.

Definition NewClient (ps : list Provider) : Client :=
  NewClient_range 0 ps {| providers := ∅; primary := ""; fallbacks := [] |}.

Definition Client_SetPrimary (c : Client) (name : string) : Client :=
  {| providers := providers c; primary := name; fallbacks := fallbacks c |}.

Definition Client_SetFallbacks (c : Client) (names : list string) : Client :=
  {| providers := providers c; primary := primary c; fallbacks := names |}.

(** [c.Provider(name)]: the pair [(p, ok)] as an option. *)
Definition Client_Provider (c : Client) (name : string) : option Provider :=
  providers c !! name.

(** The fallback loop of [Synthesize], followed by the final
    [return nil, ErrNoAvailableProvider]. *)
Fixpoint Synthesize_fallbacks (c : Client) (ctx : Context S) (text : string)
    (config : SynthesisConfig) (names : list string) (w : World S)
    : BatchReturn * World S :=
  match names with
  | [] => ((None, Some ErrNoAvailableProvider), w)
  | name :: names' =>
      match providers c !! name with
      | Some p =>
          let '((result, err), w') :=
            invoke name MSynthesize (Synthesize p ctx text config) w in
          match err with
          | None => ((result, None), w')
          | Some _ => Synthesize_fallbacks c ctx text config names' w'
          end
      | None => Synthesize_fallbacks c ctx text config names' w
      end
  end.

Definition Client_Synthesize (c : Client) (ctx : Context S) (text : string)
    (config : SynthesisConfig) (w : World S) : BatchReturn * World S :=
  match providers c !! primary c with
  | Some p =>
      let '((result, err), w') :=
        invoke (primary c) MSynthesize (Synthesize p ctx text config) w in
      match err with
      | None => ((result, None), w')
      | Some _ => Synthesize_fallbacks c ctx text config (fallbacks c) w'
      end
  | None => Synthesize_fallbacks c ctx text config (fallbacks c) w
  end.

(** The fallback loop of [SynthesizeStream], followed by the final
    [return nil, ErrNoAvailableProvider]. *)
Fixpoint SynthesizeStream_fallbacks (c : Client) (ctx : Context S) (text : string)
    (config : SynthesisConfig) (names : list string) (w : World S)
    : StreamReturn * World S :=
  match names with
  | [] => ((None, Some ErrNoAvailableProvider), w)
  | name :: names' =>
      match providers c !! name with
      | Some p =>
          let '((stream, err), w') :=
            invoke name MSynthesizeStream (SynthesizeStream p ctx text config) w in
          match err with
          | None => ((stream, None), w')
          | Some _ => SynthesizeStream_fallbacks c ctx text config names' w'
          end
      | None => SynthesizeStream_fallbacks c ctx text config names' w
      end
  end.

Definition Client_SynthesizeStream (c : Client) (ctx : Context S) (text : string)
    (config : SynthesisConfig) (w : World S) : StreamReturn * World S :=
  match providers c !! primary c with
  | Some p =>
      let '((stream, err), w') :=
        invoke (primary c) MSynthesizeStream (SynthesizeStream p ctx text config) w in
      match err with
      | None => ((stream, None), w')
      | Some _ => SynthesizeStream_fallbacks c ctx text config (fallbacks c) w'
      end
  | None => SynthesizeStream_fallbacks c ctx text config (fallbacks c) w
  end.
End Client.

Arguments Provider : clear implicits.
Arguments Client : clear implicits.
End tts.

(** ** The fallback policy, stated once

    The four loops of the two clients share one shape.  [first_success]
    is that shape over an arbitrary registry, method and return type; the
    lemmas [*_first_success] below show that the batch methods of both
    clients and [tts]'s [SynthesizeStream] are instances of it.  The
    remaining definitions of this section are the vocabulary of the
    specification: the candidate order, the candidates that resolve, and
    what attempting candidates one after the other gives. *)

Section Policy.
Context {S P R : Type}.
Variable registry : gmap string P.
Variable m : Method.
Variable run : P -> S -> (R * option error) * S.
Variable exhausted : R * option error.

Fixpoint first_success (names : list string) (w : World S)
    : (R * option error) * World S :=
  match names with
  | [] => (exhausted, w)
  | name :: names' =>
      match registry !! name with
      | Some p =>
          let '((result, err), w') := invoke name m (run p) w in
          match err with
          | None => ((result, None), w')
          | Some _ => first_success names' w'
          end
      | None => first_success names' w
      end
  end.

(** The names of a list that resolve in the registry, in list order,
    repetitions kept. *)
Definition resolving (names : list string) : list string :=
  filter (fun name => is_Some (registry !! name)) names.

(** The log entries of one attempt on each of [names], in order. *)
Definition attempts_of (names : list string) : list Call :=
  (fun name => mkCall name m) <$> names.

(** Attempting every resolving name of [names] in order, each in the
    world the previous attempt left, whatever the outcomes: the
    outcomes, and the world at the end. *)
Fixpoint attempt_all (names : list string) (w : World S)
    : list (string * (R * option error)) * World S :=
  match names with
  | [] => ([], w)
  | name :: names' =>
      match registry !! name with
      | Some p =>
          let '(out, w') := invoke name m (run p) w in
          let '(outs, w'') := attempt_all names' w' in
          ((name, out) :: outs, w'')
      | None => attempt_all names' w
      end
  end.

(** An attempt failed when its error is not nil. *)
Definition failed (a : string * (R * option error)) : bool :=
  match a.2.2 with Some _ => true | None => false end.

Definition all_failed (outs : list (string * (R * option error))) : bool :=
  forallb failed outs.
End Policy.

(** How often [name] was invoked with method [m] in a log. *)
Definition invocations (name : string) (m : Method) (log : list Call) : nat :=
  length (filter (fun c => callee c = name ∧ method c = m) log).

(** The error kinds of the specification's taxonomy and the kind of each
    error value of the repository. *)
Inductive ErrorKind : Type :=
  | NoAvailableProvider
  | StreamingNotSupported
  | CallerCancelled
  | ProviderExecutionFailure.

Definition error_kind (e : error) : ErrorKind :=
  match e with
  | Sentinel text =>
      if decide (text = "stt: no available provider") then NoAvailableProvider
      else if decide (text = "tts: no available provider") then NoAvailableProvider
      else if decide (text = "stt: streaming not supported by any provider")
           then StreamingNotSupported
      else ProviderExecutionFailure
  | Canceled | DeadlineExceeded => CallerCancelled
  | VendorError _ _ => ProviderExecutionFailure
  end.

(** The three loops of the clients that try the next candidate on
    failure, as instances of [first_success]: the names to try are the
    last argument but one. *)
Section PolicyInstances.
Context {S : Type}.

Definition stt_batch (c : stt.Client S) (ctx : Context S) (audio : list byte)
    (config : stt.TranscriptionConfig) :=
  first_success (stt.providers c) MTranscribe
    (fun p => stt.Transcribe p ctx audio config)
    (None, Some stt.ErrNoAvailableProvider).

Definition tts_batch (c : tts.Client S) (ctx : Context S) (text : string)
    (config : tts.SynthesisConfig) :=
  first_success (tts.providers c) MSynthesize
    (fun p => tts.Synthesize p ctx text config)
    (None, Some tts.ErrNoAvailableProvider).

Definition tts_stream (c : tts.Client S) (ctx : Context S) (text : string)
    (config : tts.SynthesisConfig) :=
  first_success (tts.providers c) MSynthesizeStream
    (fun p => tts.SynthesizeStream p ctx text config)
    (None, Some tts.ErrNoAvailableProvider).

(** The candidate order: the primary, then the fallbacks. *)
Definition stt_candidates (c : stt.Client S) : list string :=
  stt.primary c :: stt.fallbacks c.

Definition tts_candidates (c : tts.Client S) : list string :=
  tts.primary c :: tts.fallbacks c.

(** [attempt_all] for the same three methods. *)
Definition stt_attempt_all (c : stt.Client S) (ctx : Context S) (audio : list byte)
    (config : stt.TranscriptionConfig) :=
  attempt_all (stt.providers c) MTranscribe
    (fun p => stt.Transcribe p ctx audio config).

Definition tts_attempt_all (c : tts.Client S) (ctx : Context S) (text : string)
    (config : tts.SynthesisConfig) :=
  attempt_all (tts.providers c) MSynthesize
    (fun p => tts.Synthesize p ctx text config).

Definition tts_stream_attempt_all (c : tts.Client S) (ctx : Context S) (text : string)
    (config : tts.SynthesisConfig) :=
  attempt_all (tts.providers c) MSynthesizeStream
    (fun p => tts.SynthesizeStream p ctx text config).

(** Whether a candidate name offers the streaming capability.  In
    [stt] it must resolve to a provider that passes the type assertion
    to [StreamingProvider].  In [tts] the streaming method belongs to
    the base interface, so resolving is enough. *)
Definition stt_streaming_capable (c : stt.Client S) (name : string) : bool :=
  match stt.providers c !! name with
  | Some p => match stt.TranscribeStream p with Some _ => true | None => false end
  | None => false
  end.

Definition tts_streaming_capable (c : tts.Client S) (name : string) : bool :=
  match tts.providers c !! name with
  | Some _ => true
  | None => false
  end.
End PolicyInstances.

(** ** Sequences of configuration calls on a client *)

(** The two methods that mutate a client after [NewClient]. *)
Inductive ConfigCall : Type :=
  | SetPrimary (name : string)
  | SetFallbacks (names : list string).

Section Configure.
Context {S : Type}.

Definition stt_configure (c : stt.Client S) (k : ConfigCall) : stt.Client S :=
  match k with
  | SetPrimary name => stt.Client_SetPrimary c name
  | SetFallbacks names => stt.Client_SetFallbacks c names
  end.

Definition tts_configure (c : tts.Client S) (k : ConfigCall) : tts.Client S :=
  match k with
  | SetPrimary name => tts.Client_SetPrimary c name
  | SetFallbacks names => tts.Client_SetFallbacks c names
  end.

(** The invariant of the data model: the primary, if set, names a
    registered provider. *)
Definition stt_primary_registered (c : stt.Client S) : Prop :=
  stt.primary c ≠ "" -> is_Some (stt.providers c !! stt.primary c).

Definition tts_primary_registered (c : tts.Client S) : Prop :=
  tts.primary c ≠ "" -> is_Some (tts.providers c !! tts.primary c).

(** A configuration call that names, as primary, nothing or a provider
    of the registry [c] was built with. *)
Definition stt_names_registered (c : stt.Client S) (k : ConfigCall) : Prop :=
  match k with
  | SetPrimary name => name = "" ∨ is_Some (stt.providers c !! name)
  | SetFallbacks _ => True
  end.

Definition tts_names_registered (c : tts.Client S) (k : ConfigCall) : Prop :=
  match k with
  | SetPrimary name => name = "" ∨ is_Some (tts.providers c !! name)
  | SetFallbacks _ => True
  end.
End Configure.

(** ** Stub providers

    The providers used to run the clients on concrete inputs.  Their
    world is a natural number, the number of provider calls made so far;
    it also serves as the clock of [deadline]. *)

Definition deadline (t : nat) : Context nat :=
  {| ctx_Err := fun now => if Nat.leb t now then Some DeadlineExceeded else None |}.

Definition world0 : World nat := {| ext := 0; calls := [] |}.

Module stt_stub.
Import stt.

Definition config : TranscriptionConfig :=
  {| Language := "en-US"; Model := ""; SampleRate := 16000%Z; Channels := 1%Z;
     Encoding := "pcm"; EnablePunctuation := true; EnableWordTimestamps := false;
     EnableSpeakerDiarization := false; MaxSpeakers := 0%Z; Keywords := [];
     VocabularyID := "" |}.

Definition audio : list byte := [x52; x49; x46; x46].

(** The result a stub reports: its own name as the transcript. *)
Definition heard (who : string) : TranscriptionResult :=
  {| Result_Text := who; Result_Segments := []; Result_Language := "en-US";
     Result_LanguageConfidence := float64_one; Result_Duration := 1000000000%Z |}.

Definition batch (ret : nat -> BatchReturn)
    : Context nat -> list byte -> TranscriptionConfig -> nat -> BatchReturn * nat :=
  fun _ _ _ n => (ret n, Datatypes.S n).

Definition from (ret : nat -> BatchReturn)
    : Context nat -> string -> TranscriptionConfig -> nat -> BatchReturn * nat :=
  fun _ _ _ n => (ret n, Datatypes.S n).

(** A base provider: no [TranscribeStream] method. *)
Definition base (name : string) (ret : nat -> BatchReturn) : Provider nat :=
  {| Name := name; Transcribe := batch ret; TranscribeFile := from ret;
     TranscribeURL := from ret; TranscribeStream := None |}.

(** A streaming provider. *)
Definition streaming (name : string) (ret : nat -> BatchReturn)
    (open : nat -> StreamReturn) : Provider nat :=
  {| Name := name; Transcribe := batch ret; TranscribeFile := from ret;
     TranscribeURL := from ret;
     TranscribeStream := Some (fun _ _ n => (open n, Datatypes.S n)) |}.

Definition succeeds (name : string) : nat -> BatchReturn :=
  fun _ => (Some (heard name), None).

Definition fails (e : error) : nat -> BatchReturn :=
  fun _ => (None, Some e).

Definition opens (id : nat) : nat -> StreamReturn :=
  fun _ => (Some (mkWriteCloser id), Some (mkRecvChan id), None).

Definition refuses (e : error) : nat -> StreamReturn :=
  fun _ => (None, None, Some e).

(** A provider that honours the caller's context: each call takes one
    tick, and reports the context's error if the context is done by
    then. *)
Definition punctual (name : string) : Provider nat :=
  let run (ctx : Context nat) (n : nat) : BatchReturn * nat :=
    match ctx_Err ctx (Datatypes.S n) with
    | Some e => ((None, Some e), Datatypes.S n)
    | None => ((Some (heard name), None), Datatypes.S n)
    end in
  {| Name := name;
     Transcribe := fun ctx _ _ n => run ctx n;
     TranscribeFile := fun ctx _ _ n => run ctx n;
     TranscribeURL := fun ctx _ _ n => run ctx n;
     TranscribeStream := None |}.

(** [NewClient(a, b)], both providers succeeding. *)
Definition healthy : Client nat :=
  NewClient [base "a" (succeeds "a"); base "b" (succeeds "b")].

(** [NewClient(a, b, c)], every provider failing. *)
Definition broken : Client nat :=
  NewClient [base "a" (fails ErrRateLimited);
             base "b" (fails (VendorError "b" "503"));
             base "c" (fails ErrInvalidAudio)].

(** A failing primary, then [SetFallbacks("ghost", "real")]. *)
Definition haunted : Client nat :=
  Client_SetFallbacks
    (NewClient [base "main" (fails ErrQuotaExceeded); base "real" (succeeds "real")])
    ["ghost"; "real"].

(** A failing primary that is also the only fallback. *)
Definition doubled : Client nat :=
  Client_SetFallbacks (NewClient [base "a" (fails ErrRateLimited)]) ["a"].

(** A failing primary listed again after a fallback that succeeds. *)
Definition detour : Client nat :=
  Client_SetFallbacks
    (NewClient [base "a" (fails ErrRateLimited); base "b" (succeeds "b")])
    ["b"; "a"].

(** Two providers that honour the caller's context. *)
Definition timed : Client nat := NewClient [punctual "a"; punctual "b"].

(** The scenario of the specification: "A" fails on the first provider
    call ever made and succeeds afterwards, "B" always succeeds. *)
Definition recovering : Client nat :=
  NewClient [base "A" (fun n => if Nat.eqb n 0 then fails ErrRateLimited n
                                else succeeds "A" n);
             base "B" (succeeds "B")].

(** Two streaming providers: the first refuses to open a session, the
    second would open one. *)
Definition streamers : Client nat :=
  NewClient [streaming "a" (succeeds "a") (refuses (VendorError "a" "handshake failed"));
             streaming "b" (succeeds "b") (opens 7)].
End stt_stub.

Module tts_stub.
Import tts.

Definition config : SynthesisConfig :=
  {| VoiceID := "rachel"; Model := ""; OutputFormat := "mp3"; SampleRate := 44100%Z;
     Speed := float64_one; Pitch := float64_zero; Stability := float64_half;
     SimilarityBoost := float64_half |}.

(** The result a stub reports: one byte of audio for each character of
    its name. *)
Definition spoken (who : string) : SynthesisResult :=
  {| Result_Audio := replicate (String.length who) x00; Result_Format := "mp3";
     Result_SampleRate := 44100%Z; Result_DurationMs := 10%Z;
     Result_CharacterCount := Z.of_nat (String.length who) |}.

Definition base (name : string) (ret : nat -> BatchReturn)
    (open : nat -> StreamReturn) : Provider nat :=
  {| Name := name;
     Synthesize := fun _ _ _ n => (ret n, Datatypes.S n);
     SynthesizeStream := fun _ _ _ n => (open n, Datatypes.S n);
     SynthesizeFromReader := None |}.

Definition succeeds (name : string) : nat -> BatchReturn :=
  fun _ => (Some (spoken name), None).

Definition fails (e : error) : nat -> BatchReturn :=
  fun _ => (None, Some e).

Definition opens (id : nat) : nat -> StreamReturn :=
  fun _ => (Some (mkRecvChan id), None).

Definition refuses (e : error) : nat -> StreamReturn :=
  fun _ => (None, Some e).

Definition punctual (name : string) : Provider nat :=
  let run {A : Type} (ok : A) (ctx : Context nat) (n : nat)
      : (option A * option error) * nat :=
    match ctx_Err ctx (Datatypes.S n) with
    | Some e => ((None, Some e), Datatypes.S n)
    | None => ((Some ok, None), Datatypes.S n)
    end in
  {| Name := name;
     Synthesize := fun ctx _ _ n => run (spoken name) ctx n;
     SynthesizeStream := fun ctx _ _ n => run (mkRecvChan 0) ctx n;
     SynthesizeFromReader := None |}.

Definition healthy : Client nat :=
  NewClient [base "a" (succeeds "a") (opens 1); base "b" (succeeds "b") (opens 2)].

Definition broken : Client nat :=
  NewClient [base "a" (fails ErrRateLimited) (refuses ErrRateLimited);
             base "b" (fails (VendorError "b" "503")) (refuses (VendorError "b" "503"));
             base "c" (fails ErrInvalidConfig) (refuses ErrInvalidConfig)].

Definition haunted : Client nat :=
  Client_SetFallbacks
    (NewClient [base "main" (fails ErrQuotaExceeded) (refuses ErrQuotaExceeded);
                base "real" (succeeds "real") (opens 3)])
    ["ghost"; "real"].

Definition doubled : Client nat :=
  Client_SetFallbacks
    (NewClient [base "a" (fails ErrRateLimited) (refuses ErrRateLimited)]) ["a"].

Definition detour : Client nat :=
  Client_SetFallbacks
    (NewClient [base "a" (fails ErrRateLimited) (refuses ErrRateLimited);
                base "b" (succeeds "b") (opens 2)])
    ["b"; "a"].

Definition timed : Client nat := NewClient [punctual "a"; punctual "b"].

(** The first provider refuses to open a stream, the second would open
    one. *)
Definition streamers : Client nat :=
  NewClient [base "a" (succeeds "a") (refuses (VendorError "a" "handshake failed"));
             base "b" (succeeds "b") (opens 7)].

(** [NewClient()]: no provider at all. *)
Definition empty : Client nat := NewClient [].

(** One provider, without the [StreamingProvider] methods, whose
    [SynthesizeStream] fails. *)
Definition lone : Client nat :=
  NewClient [base "a" (succeeds "a") (refuses ErrStreamClosed)].
End tts_stub.

(** ** Last write wins *)

(** The last argument given for a field in a list of calls, or the value
    the field had before. *)
Definition last_or {A K : Type} (arg : K -> option A) (ks : list K) (before : A) : A :=
  default before (last (omap arg ks)).

(** The argument of a configuration call, when the call is the one asked
    for. *)
Definition primary_of (k : ConfigCall) : option string :=
  match k with SetPrimary name => Some name | SetFallbacks _ => None end.

Definition fallbacks_of (k : ConfigCall) : option (list string) :=
  match k with SetPrimary _ => None | SetFallbacks names => Some names end.

(** ** Package [callsystem]: the options of calls and meetings

    The package declares interfaces, which have no behaviour of their
    own, and the functional options of [MakeCall] and [JoinMeeting].  An
    option is a function that writes into an options struct through a
    pointer: here, a function from the struct to the updated struct.
    [agent.Config] belongs to a package outside these sources; its type
    is a parameter, and a pointer to it is an option. *)

Module callsystem.

Section Options.
Context {AgentConfig : Type}.

Record callOptions : Type := mkCallOptions {
  from : string;
  timeout : Duration;
  machineDetect : bool;
  record : bool;
  whisper : string;
  agentConfig : option AgentConfig;
  statusCallback : string
}.

Definition CallOption : Type := callOptions -> callOptions.

Definition WithFrom (from' : string) : CallOption :=
  fun o => {| from := from'; timeout := timeout o; machineDetect := machineDetect o;
              record := record o; whisper := whisper o; agentConfig := agentConfig o;
              statusCallback := statusCallback o |}.

Definition WithTimeout (timeout' : Duration) : CallOption :=
  fun o => {| from := from o; timeout := timeout'; machineDetect := machineDetect o;
              record := record o; whisper := whisper o; agentConfig := agentConfig o;
              statusCallback := statusCallback o |}.

Definition WithMachineDetection : CallOption :=
  fun o => {| from := from o; timeout := timeout o; machineDetect := true;
              record := record o; whisper := whisper o; agentConfig := agentConfig o;
              statusCallback := statusCallback o |}.

Definition WithRecording : CallOption :=
  fun o => {| from := from o; timeout := timeout o; machineDetect := machineDetect o;
              record := true; whisper := whisper o; agentConfig := agentConfig o;
              statusCallback := statusCallback o |}.

Definition WithWhisper (message : string) : CallOption :=
  fun o => {| from := from o; timeout := timeout o; machineDetect := machineDetect o;
              record := record o; whisper := message; agentConfig := agentConfig o;
              statusCallback := statusCallback o |}.

Definition WithAgent (config : option AgentConfig) : CallOption :=
  fun o => {| from := from o; timeout := timeout o; machineDetect := machineDetect o;
              record := record o; whisper := whisper o; agentConfig := config;
              statusCallback := statusCallback o |}.

Definition WithStatusCallback (url : string) : CallOption :=
  fun o => {| from := from o; timeout := timeout o; machineDetect := machineDetect o;
              record := record o; whisper := whisper o; agentConfig := agentConfig o;
              statusCallback := url |}.

Record meetingOptions : Type := mkMeetingOptions {
  displayName : string;
  muted : bool;
  meeting_agentConfig : option AgentConfig
}.

Definition MeetingOption : Type := meetingOptions -> meetingOptions.

Definition WithDisplayName (name : string) : MeetingOption :=
  fun o => {| displayName := name; muted := muted o;
              meeting_agentConfig := meeting_agentConfig o |}.

Definition WithMuted : MeetingOption :=
  fun o => {| displayName := displayName o; muted := true;
              meeting_agentConfig := meeting_agentConfig o |}.

Definition WithMeetingAgent (config : option AgentConfig) : MeetingOption :=
  fun o => {| displayName := displayName o; muted := muted o;
              meeting_agentConfig := config |}.

(** [callOptions] and [meetingOptions] are not exported, so code outside
    the package obtains its options from the functions above and from
    nowhere else.  A [CallOptionCall] is one such call with its
    argument, [call_option] the option it returns. *)
Inductive CallOptionCall : Type :=
  | CallWithFrom (from' : string)
  | CallWithTimeout (timeout' : Duration)
  | CallWithMachineDetection
  | CallWithRecording
  | CallWithWhisper (message : string)
  | CallWithAgent (config : option AgentConfig)
  | CallWithStatusCallback (url : string).

Definition call_option (k : CallOptionCall) : CallOption :=
  match k with
  | CallWithFrom from' => WithFrom from'
  | CallWithTimeout timeout' => WithTimeout timeout'
  | CallWithMachineDetection => WithMachineDetection
  | CallWithRecording => WithRecording
  | CallWithWhisper message => WithWhisper message
  | CallWithAgent config => WithAgent config
  | CallWithStatusCallback url => WithStatusCallback url
  end.

Inductive MeetingOptionCall : Type :=
  | CallWithDisplayName (name : string)
  | CallWithMuted
  | CallWithMeetingAgent (config : option AgentConfig).

Definition meeting_option (k : MeetingOptionCall) : MeetingOption :=
  match k with
  | CallWithDisplayName name => WithDisplayName name
  | CallWithMuted => WithMuted
  | CallWithMeetingAgent config => WithMeetingAgent config
  end.

(** The field an option writes. *)
Inductive CallField : Type :=
  | FFrom | FTimeout | FMachineDetect | FRecord | FWhisper | FAgentConfig
  | FStatusCallback.

Definition call_field (k : CallOptionCall) : CallField :=
  match k with
  | CallWithFrom _ => FFrom
  | CallWithTimeout _ => FTimeout
  | CallWithMachineDetection => FMachineDetect
  | CallWithRecording => FRecord
  | CallWithWhisper _ => FWhisper
  | CallWithAgent _ => FAgentConfig
  | CallWithStatusCallback _ => FStatusCallback
  end.

(** Calling the options of a list, one after the other, on one options
    struct: all a call system can do with the options it is given. *)
Definition apply_call_options (ks : list CallOptionCall) (o : callOptions)
    : callOptions :=
  foldl (fun o k => call_option k o) o ks.

Definition apply_meeting_options (ks : list MeetingOptionCall) (o : meetingOptions)
    : meetingOptions :=
  foldl (fun o k => meeting_option k o) o ks.

(** The argument of a call, when the call is the one asked for. *)
Definition from_of (k : CallOptionCall) : option string :=
  match k with CallWithFrom x => Some x | _ => None end.

Definition timeout_of (k : CallOptionCall) : option Duration :=
  match k with CallWithTimeout x => Some x | _ => None end.

Definition whisper_of (k : CallOptionCall) : option string :=
  match k with CallWithWhisper x => Some x | _ => None end.

Definition agent_of (k : CallOptionCall) : option (option AgentConfig) :=
  match k with CallWithAgent x => Some x | _ => None end.

Definition statusCallback_of (k : CallOptionCall) : option string :=
  match k with CallWithStatusCallback x => Some x | _ => None end.

Definition is_machineDetection (k : CallOptionCall) : bool :=
  match k with CallWithMachineDetection => true | _ => false end.

Definition is_recording (k : CallOptionCall) : bool :=
  match k with CallWithRecording => true | _ => false end.

Definition displayName_of (k : MeetingOptionCall) : option string :=
  match k with CallWithDisplayName x => Some x | _ => None end.

Definition meeting_agent_of (k : MeetingOptionCall) : option (option AgentConfig) :=
  match k with CallWithMeetingAgent x => Some x | _ => None end.

Definition is_muted (k : MeetingOptionCall) : bool :=
  match k with CallWithMuted => true | _ => false end.
End Options.

Arguments callOptions : clear implicits.
Arguments meetingOptions : clear implicits.
Arguments CallOption : clear implicits.
Arguments MeetingOption : clear implicits.
Arguments CallOptionCall : clear implicits.
Arguments MeetingOptionCall : clear implicits.
End callsystem.

(** ** More stub clients *)

Module more_stubs.

(** A base provider as primary, a streaming provider as second fallback,
    with an unregistered name between them. *)
Definition stt_mixed : stt.Client nat :=
  stt.Client_SetFallbacks
    (stt.NewClient [stt_stub.base "a" (stt_stub.succeeds "a");
                    stt_stub.streaming "b" (stt_stub.succeeds "b") (stt_stub.opens 7)])
    ["ghost"; "b"].

(** Three failing providers, the first listed again twice among the
    fallbacks. *)
Definition stt_echo : stt.Client nat :=
  stt.Client_SetFallbacks
    (stt.NewClient [stt_stub.base "a" (stt_stub.fails stt.ErrRateLimited);
                    stt_stub.base "b" (stt_stub.fails stt.ErrInvalidAudio)])
    ["a"; "b"; "ghost"; "a"].

Definition tts_echo : tts.Client nat :=
  tts.Client_SetFallbacks
    (tts.NewClient [tts_stub.base "a" (tts_stub.fails tts.ErrRateLimited)
                      (tts_stub.refuses tts.ErrRateLimited);
                    tts_stub.base "b" (tts_stub.fails tts.ErrInvalidConfig)
                      (tts_stub.refuses tts.ErrInvalidConfig)])
    ["a"; "b"; "ghost"; "a"].

(** Options of an outbound call, as a caller would pass them. *)
Definition call_defaults : callsystem.callOptions nat :=
  {| callsystem.from := ""; callsystem.timeout := 0%Z;
     callsystem.machineDetect := false; callsystem.record := false;
     callsystem.whisper := ""; callsystem.agentConfig := None;
     callsystem.statusCallback := "" |}.

Definition meeting_defaults : callsystem.meetingOptions nat :=
  {| callsystem.displayName := ""; callsystem.muted := false;
     callsystem.meeting_agentConfig := None |}.
End more_stubs.

(** ** Facts about the policy *)

Lemma invoke_eq {S R : Type} (name : string) (m : Method) (f : S -> R * S)
    (w : World S) :
  invoke name m f w
  = ((f (ext w)).1, {| ext := (f (ext w)).2; calls := calls w ++ [mkCall name m] |}).
Proof. unfold invoke. by destruct (f (ext w)). Qed.

Section PolicyFacts.
Context {S P R : Type}.
Variable registry : gmap string P.
Variable m : Method.
Variable run : P -> S -> (R * option error) * S.
Variable exhausted : R * option error.

Local Abbreviation loop := (first_success registry m run exhausted).
Local Abbreviation sweep := (attempt_all registry m run).
Local Abbreviation live := (resolving registry).
Local Abbreviation entries := (attempts_of m).

(** One step of the loop on a name that resolves. *)
Lemma first_success_step name names p w :
  registry !! name = Some p ->
  loop (name :: names) w
  = match (run p (ext w)).1.2 with
    | None => (((run p (ext w)).1.1, None),
               {| ext := (run p (ext w)).2; calls := calls w ++ [mkCall name m] |})
    | Some _ =>
        loop names
          {| ext := (run p (ext w)).2; calls := calls w ++ [mkCall name m] |}
    end.
Proof.
  intros Hp. simpl. rewrite Hp, invoke_eq.
  by destruct (run p (ext w)) as [[result [e|]] s'].
Qed.

Lemma first_success_unresolved name names w :
  registry !! name = None ->
  loop (name :: names) w = loop names w.
Proof. intros Hp. simpl. by rewrite Hp. Qed.

Lemma attempt_all_step name names p w :
  registry !! name = Some p ->
  sweep (name :: names) w
  = let w' := {| ext := (run p (ext w)).2; calls := calls w ++ [mkCall name m] |} in
    ((name, (run p (ext w)).1) :: (sweep names w').1, (sweep names w').2).
Proof.
  intros Hp. simpl. rewrite Hp, invoke_eq.
  by destruct (sweep names _).
Qed.

Lemma attempt_all_unresolved name names w :
  registry !! name = None ->
  sweep (name :: names) w = sweep names w.
Proof. intros Hp. simpl. by rewrite Hp. Qed.

Lemma resolving_cons_Some name names p :
  registry !! name = Some p -> live (name :: names) = name :: live names.
Proof. intros Hp. unfold live. rewrite filter_cons_True; [done | by rewrite Hp]. Qed.

Lemma resolving_cons_None name names :
  registry !! name = None -> live (name :: names) = live names.
Proof.
  intros Hp. unfold live. rewrite filter_cons_False; [done |].
  rewrite Hp. by intros [? ?].
Qed.

(** Names that do not resolve play no part. *)
Lemma first_success_resolving names w :
  loop names w = loop (live names) w.
Proof.
  revert w. induction names as [|name names IH]; intros w; [done |].
  destruct (registry !! name) as [p|] eqn:Hp.
  - rewrite (resolving_cons_Some _ _ p Hp), !(first_success_step _ _ p) by done.
    destruct ((run p (ext w)).1.2); [apply IH | done].
  - rewrite resolving_cons_None, first_success_unresolved by done. apply IH.
Qed.

(** The log after attempting everything: one entry per live name,
    in order. *)
Lemma attempt_all_calls names w :
  calls (sweep names w).2 = calls w ++ entries (live names).
Proof.
  revert w. induction names as [|name names IH]; intros w.
  - simpl. by rewrite app_nil_r.
  - destruct (registry !! name) as [p|] eqn:Hp.
    + rewrite (attempt_all_step _ _ p _ Hp), (resolving_cons_Some _ _ p Hp).
      cbn -[attempt_all]. rewrite IH. cbn. by rewrite <- app_assoc.
    + rewrite attempt_all_unresolved, resolving_cons_None by done. apply IH.
Qed.

(** While attempts fail, the loop goes on: after a prefix of names
    whose attempts all fail, the loop continues with the rest in the
    world those attempts left. *)
Lemma first_success_past_failures pre rest w :
  all_failed (sweep pre w).1 = true ->
  loop (pre ++ rest) w = loop rest (sweep pre w).2.
Proof.
  revert w. induction pre as [|name pre IH]; intros w Hfail; [done |].
  rewrite <- app_comm_cons.
  destruct (registry !! name) as [p|] eqn:Hp.
  - rewrite (attempt_all_step _ _ p _ Hp) in Hfail |- *.
    rewrite (first_success_step _ _ p _ Hp).
    cbn -[attempt_all] in Hfail |- *.
    apply andb_prop in Hfail as [Hhead Htail].
    unfold failed in Hhead. cbn in Hhead.
    destruct ((run p (ext w)).1.2); [by apply IH | done].
  - rewrite attempt_all_unresolved in Hfail |- * by done.
    rewrite first_success_unresolved by done. by apply IH.
Qed.

Lemma first_success_exhausted names w :
  all_failed (sweep names w).1 = true ->
  loop names w = (exhausted, (sweep names w).2).
Proof.
  intros Hfail. rewrite <- (app_nil_r names) at 1.
  by rewrite first_success_past_failures.
Qed.

(** The log only grows, by attempts on live names in order. *)
Lemma first_success_calls names w :
  ∃ k, calls (loop names w).2
       = calls w ++ entries (take k (live names)).
Proof.
  revert w. induction names as [|name names IH]; intros w.
  - exists 0. simpl. by rewrite app_nil_r.
  - destruct (registry !! name) as [p|] eqn:Hp.
    + rewrite (first_success_step _ _ p _ Hp), (resolving_cons_Some _ _ p Hp).
      destruct ((run p (ext w)).1.2).
      * destruct (IH {| ext := (run p (ext w)).2;
                        calls := calls w ++ [mkCall name m] |}) as [k Hk].
        exists (Datatypes.S k). rewrite Hk. cbn. by rewrite <- app_assoc.
      * exists 1. cbn. by rewrite take_0.
    + rewrite first_success_unresolved, resolving_cons_None by done. apply IH.
Qed.

(** A live name at the head of the list is invoked. *)
Lemma first_success_invokes name names p w :
  registry !! name = Some p ->
  ∃ tail, calls (loop (name :: names) w).2
          = calls w ++ mkCall name m :: tail.
Proof.
  intros Hp. destruct (first_success_calls (name :: names) w) as [k Hk].
  rewrite (resolving_cons_Some _ _ p Hp) in Hk.
  destruct k as [|k].
  - exfalso. rewrite (first_success_step _ _ p _ Hp) in Hk.
    destruct ((run p (ext w)).1.2).
    + destruct (first_success_calls names
        {| ext := (run p (ext w)).2; calls := calls w ++ [mkCall name m] |})
        as [k' Hk'].
      rewrite Hk' in Hk. cbn in Hk. rewrite app_nil_r, <- app_assoc in Hk.
      apply (f_equal length) in Hk. rewrite !length_app in Hk. cbn in Hk. lia.
    + cbn in Hk. rewrite app_nil_r in Hk.
      apply (f_equal length) in Hk. rewrite length_app in Hk. cbn in Hk. lia.
  - eexists. rewrite Hk. by cbn.
Qed.

(** What the loop returns: the exhausted value, or what some live
    candidate returned together with a nil error. *)
Lemma first_success_returns names w :
  (loop names w).1 = exhausted
  ∨ ∃ name p s result,
      name ∈ names ∧ registry !! name = Some p
      ∧ (run p s).1 = (result, None)
      ∧ (loop names w).1 = (result, None).
Proof.
  revert w. induction names as [|name names IH]; intros w; [by left |].
  destruct (registry !! name) as [p|] eqn:Hp.
  - rewrite (first_success_step _ _ p _ Hp).
    destruct (run p (ext w)) as [[result [e|]] s'] eqn:Hrun; cbn.
    + destruct (IH {| ext := s'; calls := calls w ++ [mkCall name m] |})
        as [Hex | (name' & p' & s & result' & Hin & Hp' & Hrun' & Hret)];
        [by left | right].
      exists name', p', s, result'. split; [by apply list_elem_of_further | done].
    + right. exists name, p, (ext w), result.
      split; [apply list_elem_of_here |]. by rewrite Hrun.
  - rewrite first_success_unresolved by done.
    destruct (IH w) as [Hex | (name' & p' & s & result' & Hin & Hp' & Hrun' & Hret)];
      [by left | right].
    exists name', p', s, result'. split; [by apply list_elem_of_further | done].
Qed.

(** Providers that fail in every world fail when they are attempted. *)
Lemma attempt_all_always_failing names w :
  (∀ name p s, name ∈ names -> registry !! name = Some p ->
               is_Some (run p s).1.2) ->
  all_failed (sweep names w).1 = true.
Proof.
  revert w. induction names as [|name names IH]; intros w Hfail; [done |].
  assert (Hrest : ∀ name' p s, name' ∈ names -> registry !! name' = Some p ->
                               is_Some (run p s).1.2).
  { intros name' p s Hin. apply Hfail. by apply list_elem_of_further. }
  destruct (registry !! name) as [p|] eqn:Hp.
  - rewrite (attempt_all_step _ _ p _ Hp). cbn -[attempt_all].
    apply andb_true_intro. split; [| by apply IH].
    unfold failed. cbn.
    destruct (Hfail name p (ext w) (list_elem_of_here _ _) Hp) as [e He].
    by rewrite He.
  - rewrite attempt_all_unresolved by done. by apply IH.
Qed.
End PolicyFacts.

(** ** The clients' loops are instances of the policy *)

Ltac loop_is_policy names :=
  let name := fresh "name" in
  let IH := fresh "IH" in
  let w := fresh "w" in
  intros w; revert w; induction names as [|name names IH]; intros w;
  [ reflexivity
  | simpl; destruct (_ !! name); [| apply IH];
    destruct (invoke _ _ _ w) as [[? [?|]] ?]; [apply IH | reflexivity] ].

Section Instances.
Context {S : Type}.

Lemma stt_Transcribe_fallbacks_first_success (c : stt.Client S) ctx audio config names :
  ∀ w, stt.Transcribe_fallbacks c ctx audio config names w
       = stt_batch c ctx audio config names w.
Proof. unfold stt_batch; loop_is_policy names. Qed.

Lemma stt_Transcribe_first_success (c : stt.Client S) ctx audio config w :
  stt.Client_Transcribe c ctx audio config w
  = stt_batch c ctx audio config (stt.primary c :: stt.fallbacks c) w.
Proof.
  unfold stt.Client_Transcribe, stt_batch. simpl.
  destruct (_ !! stt.primary c);
    [| apply stt_Transcribe_fallbacks_first_success].
  destruct (invoke _ _ _ w) as [[? [?|]] ?];
    [apply stt_Transcribe_fallbacks_first_success | reflexivity].
Qed.

Lemma tts_Synthesize_fallbacks_first_success (c : tts.Client S) ctx text config names :
  ∀ w, tts.Synthesize_fallbacks c ctx text config names w
       = tts_batch c ctx text config names w.
Proof. unfold tts_batch; loop_is_policy names. Qed.

Lemma tts_Synthesize_first_success (c : tts.Client S) ctx text config w :
  tts.Client_Synthesize c ctx text config w
  = tts_batch c ctx text config (tts.primary c :: tts.fallbacks c) w.
Proof.
  unfold tts.Client_Synthesize, tts_batch. simpl.
  destruct (_ !! tts.primary c);
    [| apply tts_Synthesize_fallbacks_first_success].
  destruct (invoke _ _ _ w) as [[? [?|]] ?];
    [apply tts_Synthesize_fallbacks_first_success | reflexivity].
Qed.

Lemma tts_SynthesizeStream_fallbacks_first_success (c : tts.Client S) ctx text config names :
  ∀ w, tts.SynthesizeStream_fallbacks c ctx text config names w
       = tts_stream c ctx text config names w.
Proof. unfold tts_stream; loop_is_policy names. Qed.

Lemma tts_SynthesizeStream_first_success (c : tts.Client S) ctx text config w :
  tts.Client_SynthesizeStream c ctx text config w
  = tts_stream c ctx text config (tts.primary c :: tts.fallbacks c) w.
Proof.
  unfold tts.Client_SynthesizeStream, tts_stream. simpl.
  destruct (_ !! tts.primary c);
    [| apply tts_SynthesizeStream_fallbacks_first_success].
  destruct (invoke _ _ _ w) as [[? [?|]] ?];
    [apply tts_SynthesizeStream_fallbacks_first_success | reflexivity].
Qed.
End Instances.

(** ** Batch execution *)

(** C1.  When the primary name resolves in the registry and the primary
    provider's batch call (Transcribe for STT, Synthesize for TTS)
    succeeds on the request, the client returns that provider's result
    with a nil error, and the only provider call made is that one call on
    the primary: no fallback is invoked. *)
Theorem C1_primary_success_no_fallback :
  (∀ (S : Type) (c : stt.Client S) ctx audio config w p result s',
     stt.providers c !! stt.primary c = Some p ->
     stt.Transcribe p ctx audio config (ext w) = ((result, None), s') ->
     stt.Client_Transcribe c ctx audio config w
     = ((result, None),
        {| ext := s'; calls := calls w ++ [mkCall (stt.primary c) MTranscribe] |}))
  ∧
  (∀ (S : Type) (c : tts.Client S) ctx text config w p result s',
     tts.providers c !! tts.primary c = Some p ->
     tts.Synthesize p ctx text config (ext w) = ((result, None), s') ->
     tts.Client_Synthesize c ctx text config w
     = ((result, None),
        {| ext := s'; calls := calls w ++ [mkCall (tts.primary c) MSynthesize] |})).
Proof.
  split; intros S c ctx input config w p result s' Hp Hrun.
  - unfold stt.Client_Transcribe. by rewrite Hp, invoke_eq, Hrun.
  - unfold tts.Client_Synthesize. by rewrite Hp, invoke_eq, Hrun.
Qed.

(** Both clients built by [NewClient(a, b)], "a" succeeding. *)
Lemma C1_witness :
  (stt.providers stt_stub.healthy !! stt.primary stt_stub.healthy
   = Some (stt_stub.base "a" (stt_stub.succeeds "a"))
   ∧ stt.Client_Transcribe stt_stub.healthy Background stt_stub.audio stt_stub.config world0
     = ((Some (stt_stub.heard "a"), None),
        {| ext := 1; calls := [mkCall "a" MTranscribe] |}))
  ∧
  (tts.providers tts_stub.healthy !! tts.primary tts_stub.healthy
   = Some (tts_stub.base "a" (tts_stub.succeeds "a") (tts_stub.opens 1))
   ∧ tts.Client_Synthesize tts_stub.healthy Background "Hello" tts_stub.config world0
     = ((Some (tts_stub.spoken "a"), None),
        {| ext := 1; calls := [mkCall "a" MSynthesize] |})).
Proof.
  split; (split; [reflexivity |]).
  - apply (proj1 C1_primary_success_no_fallback nat stt_stub.healthy Background
             stt_stub.audio stt_stub.config world0
             (stt_stub.base "a" (stt_stub.succeeds "a"))); reflexivity.
  - apply (proj2 C1_primary_success_no_fallback nat tts_stub.healthy Background
             "Hello" tts_stub.config world0
             (tts_stub.base "a" (tts_stub.succeeds "a") (tts_stub.opens 1))); reflexivity.
Defined.

(** C2.  When every candidate of the order primary-then-fallbacks that
    resolves in the registry fails when it is attempted, the batch method
    returns a nil result with the no-available-provider error, and the
    provider calls it made are exactly one call per resolving candidate,
    in the declared order (the primary first, then the fallbacks in list
    order). *)
Theorem C2_all_fail_no_available_provider :
  (∀ (S : Type) (c : stt.Client S) ctx audio config w,
     all_failed (stt_attempt_all c ctx audio config (stt_candidates c) w).1 = true ->
     (stt.Client_Transcribe c ctx audio config w).1
     = (None, Some stt.ErrNoAvailableProvider)
     ∧ calls (stt.Client_Transcribe c ctx audio config w).2
       = calls w ++ attempts_of MTranscribe
                      (resolving (stt.providers c) (stt_candidates c)))
  ∧
  (∀ (S : Type) (c : tts.Client S) ctx text config w,
     all_failed (tts_attempt_all c ctx text config (tts_candidates c) w).1 = true ->
     (tts.Client_Synthesize c ctx text config w).1
     = (None, Some tts.ErrNoAvailableProvider)
     ∧ calls (tts.Client_Synthesize c ctx text config w).2
       = calls w ++ attempts_of MSynthesize
                      (resolving (tts.providers c) (tts_candidates c))).
Proof.
  split; intros S c ctx input config w Hfail.
  - rewrite stt_Transcribe_first_success. unfold stt_batch.
    rewrite first_success_exhausted by exact Hfail.
    split; [done | apply attempt_all_calls].
  - rewrite tts_Synthesize_first_success. unfold tts_batch.
    rewrite first_success_exhausted by exact Hfail.
    split; [done | apply attempt_all_calls].
Qed.

(** Both clients built by [NewClient(a, b, c)], every provider failing. *)
Lemma C2_witness :
  (all_failed (stt_attempt_all stt_stub.broken Background stt_stub.audio stt_stub.config
                 (stt_candidates stt_stub.broken) world0).1 = true
   ∧ (stt.Client_Transcribe stt_stub.broken Background stt_stub.audio stt_stub.config
        world0).1 = (None, Some stt.ErrNoAvailableProvider)
   ∧ calls (stt.Client_Transcribe stt_stub.broken Background stt_stub.audio
              stt_stub.config world0).2
     = [mkCall "a" MTranscribe; mkCall "b" MTranscribe; mkCall "c" MTranscribe])
  ∧
  (all_failed (tts_attempt_all tts_stub.broken Background "Hello" tts_stub.config
                 (tts_candidates tts_stub.broken) world0).1 = true
   ∧ (tts.Client_Synthesize tts_stub.broken Background "Hello" tts_stub.config
        world0).1 = (None, Some tts.ErrNoAvailableProvider)
   ∧ calls (tts.Client_Synthesize tts_stub.broken Background "Hello" tts_stub.config
              world0).2
     = [mkCall "a" MSynthesize; mkCall "b" MSynthesize; mkCall "c" MSynthesize]).
Proof.
  split; (split; [reflexivity |]).
  - apply (proj1 C2_all_fail_no_available_provider nat stt_stub.broken Background
             stt_stub.audio stt_stub.config world0). reflexivity.
  - apply (proj2 C2_all_fail_no_available_provider nat tts_stub.broken Background
             "Hello" tts_stub.config world0). reflexivity.
Defined.

(** C6.  Fallback names that do not resolve in the registry are skipped
    without producing an error: a client behaves exactly as the client
    whose fallback list keeps only the names that resolve.  In
    particular, when the fallback loop is reached (the primary does not
    resolve, or its call fails) with fallbacks [ghost; real], where
    ghost is not registered and real is, and the call on real's provider
    succeeds, the batch method returns real's result with a nil error,
    and ghost leaves no trace in the call log. *)
Theorem C6_unregistered_fallbacks_skipped :
  (∀ (S : Type) (c : stt.Client S) ctx audio config w,
     stt.Client_Transcribe c ctx audio config w
     = stt.Client_Transcribe
         (stt.Client_SetFallbacks c (resolving (stt.providers c) (stt.fallbacks c)))
         ctx audio config w)
  ∧
  (∀ (S : Type) (c : stt.Client S) ctx audio config w ghost real p result s2,
     stt.fallbacks c = [ghost; real] ->
     stt.providers c !! ghost = None ->
     stt.providers c !! real = Some p ->
     all_failed (stt_attempt_all c ctx audio config [stt.primary c] w).1 = true ->
     stt.Transcribe p ctx audio config
       (ext (stt_attempt_all c ctx audio config [stt.primary c] w).2)
     = ((result, None), s2) ->
     stt.Client_Transcribe c ctx audio config w
     = ((result, None),
        {| ext := s2;
           calls := calls (stt_attempt_all c ctx audio config [stt.primary c] w).2
                    ++ [mkCall real MTranscribe] |}))
  ∧
  (∀ (S : Type) (c : tts.Client S) ctx text config w,
     tts.Client_Synthesize c ctx text config w
     = tts.Client_Synthesize
         (tts.Client_SetFallbacks c (resolving (tts.providers c) (tts.fallbacks c)))
         ctx text config w)
  ∧
  (∀ (S : Type) (c : tts.Client S) ctx text config w ghost real p result s2,
     tts.fallbacks c = [ghost; real] ->
     tts.providers c !! ghost = None ->
     tts.providers c !! real = Some p ->
     all_failed (tts_attempt_all c ctx text config [tts.primary c] w).1 = true ->
     tts.Synthesize p ctx text config
       (ext (tts_attempt_all c ctx text config [tts.primary c] w).2)
     = ((result, None), s2) ->
     tts.Client_Synthesize c ctx text config w
     = ((result, None),
        {| ext := s2;
           calls := calls (tts_attempt_all c ctx text config [tts.primary c] w).2
                    ++ [mkCall real MSynthesize] |})).
Proof.
  split; [| split; [| split]].
  - intros S c ctx audio config w.
    unfold stt.Client_Transcribe, stt.Client_SetFallbacks. cbn.
    rewrite !stt_Transcribe_fallbacks_first_success.
    assert (Hskip : ∀ w', stt_batch c ctx audio config (stt.fallbacks c) w'
                          = stt_batch {| stt.providers := stt.providers c;
                                         stt.primary := stt.primary c;
                                         stt.fallbacks := resolving (stt.providers c)
                                                            (stt.fallbacks c) |}
                              ctx audio config
                              (resolving (stt.providers c) (stt.fallbacks c)) w').
    { intros w'. apply first_success_resolving. }
    destruct (stt.providers c !! stt.primary c); [| apply Hskip].
    destruct (invoke _ _ _ w) as [[? [?|]] ?]; [| done].
    rewrite !stt_Transcribe_fallbacks_first_success. apply Hskip.
  - intros S c ctx audio config w ghost real p result s2 Hfb Hghost Hreal Hfail Hrun.
    rewrite stt_Transcribe_first_success. rewrite Hfb.
    change (stt.primary c :: [ghost; real]) with ([stt.primary c] ++ [ghost; real]).
    unfold stt_batch. rewrite first_success_past_failures by exact Hfail.
    rewrite first_success_unresolved by done.
    rewrite (first_success_step _ _ _ _ real [] p _ Hreal).
    unfold stt_attempt_all in Hrun. by rewrite Hrun.
  - intros S c ctx text config w.
    unfold tts.Client_Synthesize, tts.Client_SetFallbacks. cbn.
    rewrite !tts_Synthesize_fallbacks_first_success.
    assert (Hskip : ∀ w', tts_batch c ctx text config (tts.fallbacks c) w'
                          = tts_batch {| tts.providers := tts.providers c;
                                         tts.primary := tts.primary c;
                                         tts.fallbacks := resolving (tts.providers c)
                                                            (tts.fallbacks c) |}
                              ctx text config
                              (resolving (tts.providers c) (tts.fallbacks c)) w').
    { intros w'. apply first_success_resolving. }
    destruct (tts.providers c !! tts.primary c); [| apply Hskip].
    destruct (invoke _ _ _ w) as [[? [?|]] ?]; [| done].
    rewrite !tts_Synthesize_fallbacks_first_success. apply Hskip.
  - intros S c ctx text config w ghost real p result s2 Hfb Hghost Hreal Hfail Hrun.
    rewrite tts_Synthesize_first_success. rewrite Hfb.
    change (tts.primary c :: [ghost; real]) with ([tts.primary c] ++ [ghost; real]).
    unfold tts_batch. rewrite first_success_past_failures by exact Hfail.
    rewrite first_success_unresolved by done.
    rewrite (first_success_step _ _ _ _ real [] p _ Hreal).
    unfold tts_attempt_all in Hrun. by rewrite Hrun.
Qed.

(** A failing primary "main", then the fallbacks "ghost" and "real". *)
Lemma C6_witness :
  (stt.fallbacks stt_stub.haunted = ["ghost"; "real"]
   ∧ stt.providers stt_stub.haunted !! "ghost" = None
   ∧ stt.Client_Transcribe stt_stub.haunted Background stt_stub.audio stt_stub.config
       world0
     = ((Some (stt_stub.heard "real"), None),
        {| ext := 2; calls := [mkCall "main" MTranscribe; mkCall "real" MTranscribe] |}))
  ∧
  (tts.fallbacks tts_stub.haunted = ["ghost"; "real"]
   ∧ tts.providers tts_stub.haunted !! "ghost" = None
   ∧ tts.Client_Synthesize tts_stub.haunted Background "Hello" tts_stub.config world0
     = ((Some (tts_stub.spoken "real"), None),
        {| ext := 2; calls := [mkCall "main" MSynthesize; mkCall "real" MSynthesize] |})).
Proof.
  split; (split; [reflexivity | split; [reflexivity |]]).
  - apply (proj1 (proj2 C6_unregistered_fallbacks_skipped) nat stt_stub.haunted
             Background stt_stub.audio stt_stub.config world0 "ghost" "real"
             (stt_stub.base "real" (stt_stub.succeeds "real")));
      reflexivity.
  - apply (proj2 (proj2 (proj2 C6_unregistered_fallbacks_skipped)) nat tts_stub.haunted
             Background "Hello" tts_stub.config world0 "ghost" "real"
             (tts_stub.base "real" (tts_stub.succeeds "real") (tts_stub.opens 3)));
      reflexivity.
Defined.

(** C7.  Whatever the providers do and whatever errors they fail with,
    the batch method returns one of two things: a nil result with the
    package's no-available-provider error, or, with a nil error, the
    result that a resolving candidate returned together with a nil
    error.  An error value coming from a provider is never returned. *)
Theorem C7_batch_returns_result_or_no_available_provider :
  (∀ (S : Type) (c : stt.Client S) ctx audio config w,
     (stt.Client_Transcribe c ctx audio config w).1
     = (None, Some stt.ErrNoAvailableProvider)
     ∨ ∃ name p s result,
         name ∈ stt_candidates c
         ∧ stt.providers c !! name = Some p
         ∧ (stt.Transcribe p ctx audio config s).1 = (result, None)
         ∧ (stt.Client_Transcribe c ctx audio config w).1 = (result, None))
  ∧
  (∀ (S : Type) (c : tts.Client S) ctx text config w,
     (tts.Client_Synthesize c ctx text config w).1
     = (None, Some tts.ErrNoAvailableProvider)
     ∨ ∃ name p s result,
         name ∈ tts_candidates c
         ∧ tts.providers c !! name = Some p
         ∧ (tts.Synthesize p ctx text config s).1 = (result, None)
         ∧ (tts.Client_Synthesize c ctx text config w).1 = (result, None)).
Proof.
  split; intros S c ctx input config w.
  - rewrite stt_Transcribe_first_success. apply first_success_returns.
  - rewrite tts_Synthesize_first_success. apply first_success_returns.
Qed.

(** The end-to-end scenario of the specification: the first request is
    served by "B" after "A" failed once; the next request, in the world
    the first one left, is served by "A".  A provider that failed is not
    remembered as failed. *)
Example no_blacklisting :
  let first := stt.Client_Transcribe stt_stub.recovering Background stt_stub.audio
                 stt_stub.config world0 in
  let second := stt.Client_Transcribe stt_stub.recovering Background stt_stub.audio
                  stt_stub.config first.2 in
  first.1 = (Some (stt_stub.heard "B"), None)
  ∧ second.1 = (Some (stt_stub.heard "A"), None)
  ∧ calls second.2
    = [mkCall "A" MTranscribe; mkCall "B" MTranscribe; mkCall "A" MTranscribe].
Proof. repeat split. Qed.

(** ** Repeated names and cancelled contexts *)

Lemma invocations_app name m log1 log2 :
  invocations name m (log1 ++ log2) = invocations name m log1 + invocations name m log2.
Proof. unfold invocations. by rewrite filter_app, length_app. Qed.

Lemma invocations_cons_same name m log :
  invocations name m (mkCall name m :: log) = Datatypes.S (invocations name m log).
Proof. unfold invocations. by rewrite filter_cons_True. Qed.

(** After candidates whose attempts all failed, a resolving candidate
    that comes next is invoked, in the world those attempts left. *)
Lemma first_success_reaches {S P R : Type} (registry : gmap string P) (m : Method)
    (run : P -> S -> (R * option error) * S) (exhausted : R * option error)
    (pre : list string) (name : string) (post : list string) (p : P) (w : World S) :
  registry !! name = Some p ->
  all_failed (attempt_all registry m run pre w).1 = true ->
  first_success registry m run exhausted (pre ++ name :: post) w
  = first_success registry m run exhausted (name :: post)
      (attempt_all registry m run pre w).2
  ∧ ∃ tail, calls (first_success registry m run exhausted (pre ++ name :: post) w).2
            = calls (attempt_all registry m run pre w).2 ++ mkCall name m :: tail.
Proof.
  intros Hp Hfail. rewrite first_success_past_failures by exact Hfail.
  split; [done | by apply (first_success_invokes _ _ _ _ _ _ p)].
Qed.

(** C10, as the code has it.  Candidate names are not deduplicated: when
    the primary resolves, is listed again among the fallbacks, and the
    attempts on the primary and on every resolving fallback listed before
    that occurrence fail, one batch call invokes the primary's provider a
    second time (once as primary, once as fallback). *)
Theorem C10_listed_primary_invoked_again :
  (∀ (S : Type) (c : stt.Client S) ctx audio config w p pre post,
     stt.providers c !! stt.primary c = Some p ->
     stt.fallbacks c = pre ++ stt.primary c :: post ->
     all_failed (stt_attempt_all c ctx audio config (stt.primary c :: pre) w).1 = true ->
     (∃ tail, calls (stt.Client_Transcribe c ctx audio config w).2
              = calls w ++ mkCall (stt.primary c) MTranscribe
                  :: attempts_of MTranscribe (resolving (stt.providers c) pre)
                  ++ mkCall (stt.primary c) MTranscribe :: tail)
     ∧ (invocations (stt.primary c) MTranscribe (calls w) + 2
        ≤ invocations (stt.primary c) MTranscribe
            (calls (stt.Client_Transcribe c ctx audio config w).2))%nat)
  ∧
  (∀ (S : Type) (c : tts.Client S) ctx text config w p pre post,
     tts.providers c !! tts.primary c = Some p ->
     tts.fallbacks c = pre ++ tts.primary c :: post ->
     all_failed (tts_attempt_all c ctx text config (tts.primary c :: pre) w).1 = true ->
     (∃ tail, calls (tts.Client_Synthesize c ctx text config w).2
              = calls w ++ mkCall (tts.primary c) MSynthesize
                  :: attempts_of MSynthesize (resolving (tts.providers c) pre)
                  ++ mkCall (tts.primary c) MSynthesize :: tail)
     ∧ (invocations (tts.primary c) MSynthesize (calls w) + 2
        ≤ invocations (tts.primary c) MSynthesize
            (calls (tts.Client_Synthesize c ctx text config w).2))%nat).
Proof.
  split; intros S c ctx input config w p pre post Hp Hfb Hfail.
  - rewrite stt_Transcribe_first_success, Hfb, app_comm_cons.
    destruct (first_success_reaches (stt.providers c) MTranscribe
                (fun p => stt.Transcribe p ctx input config)
                (None, Some stt.ErrNoAvailableProvider)
                (stt.primary c :: pre) (stt.primary c) post p w Hp Hfail)
      as [_ [tail Htail]].
    unfold stt_batch, stt.BatchReturn. rewrite Htail, attempt_all_calls.
    rewrite (resolving_cons_Some _ _ _ p Hp). cbn. rewrite <- app_assoc. cbn.
    split; [by exists tail |].
    rewrite invocations_app, invocations_cons_same, invocations_app,
      invocations_cons_same. lia.
  - rewrite tts_Synthesize_first_success, Hfb, app_comm_cons.
    destruct (first_success_reaches (tts.providers c) MSynthesize
                (fun p => tts.Synthesize p ctx input config)
                (None, Some tts.ErrNoAvailableProvider)
                (tts.primary c :: pre) (tts.primary c) post p w Hp Hfail)
      as [_ [tail Htail]].
    unfold tts_batch, tts.BatchReturn. rewrite Htail, attempt_all_calls.
    rewrite (resolving_cons_Some _ _ _ p Hp). cbn. rewrite <- app_assoc. cbn.
    split; [by exists tail |].
    rewrite invocations_app, invocations_cons_same, invocations_app,
      invocations_cons_same. lia.
Qed.

(** The failing primary "a" is its own and only fallback. *)
Lemma C10_witness :
  (stt.fallbacks stt_stub.doubled = [] ++ stt.primary stt_stub.doubled :: []
   ∧ (invocations "a" MTranscribe (calls world0) + 2
      ≤ invocations "a" MTranscribe
          (calls (stt.Client_Transcribe stt_stub.doubled Background stt_stub.audio
                    stt_stub.config world0).2))%nat)
  ∧
  (tts.fallbacks tts_stub.doubled = [] ++ tts.primary tts_stub.doubled :: []
   ∧ (invocations "a" MSynthesize (calls world0) + 2
      ≤ invocations "a" MSynthesize
          (calls (tts.Client_Synthesize tts_stub.doubled Background "Hello"
                    tts_stub.config world0).2))%nat).
Proof.
  split; (split; [reflexivity |]).
  - apply (proj1 C10_listed_primary_invoked_again nat stt_stub.doubled Background
             stt_stub.audio stt_stub.config world0
             (stt_stub.base "a" (stt_stub.fails stt.ErrRateLimited)) [] []);
      reflexivity.
  - apply (proj2 C10_listed_primary_invoked_again nat tts_stub.doubled Background
             "Hello" tts_stub.config world0
             (tts_stub.base "a" (tts_stub.fails tts.ErrRateLimited)
                (tts_stub.refuses tts.ErrRateLimited)) [] []);
      reflexivity.
Defined.

(** C10 as stated fails: the primary "a" is listed again after the
    fallback "b", the provider "a" fails on every call, and yet one batch
    call invokes "a" only once, because "b" succeeds before the second
    occurrence of "a" is reached. *)
Lemma C10_counterexample :
  stt.primary stt_stub.detour = "a"
  ∧ stt.fallbacks stt_stub.detour = ["b"; "a"]
  ∧ stt.providers stt_stub.detour !! "a"
    = Some (stt_stub.base "a" (stt_stub.fails stt.ErrRateLimited))
  ∧ (∀ ctx audio config n,
       (stt.Transcribe (stt_stub.base "a" (stt_stub.fails stt.ErrRateLimited))
          ctx audio config n).1 = (None, Some stt.ErrRateLimited))
  ∧ stt.Client_Transcribe stt_stub.detour Background stt_stub.audio stt_stub.config world0
    = ((Some (stt_stub.heard "b"), None),
       {| ext := 2; calls := [mkCall "a" MTranscribe; mkCall "b" MTranscribe] |})
  ∧ invocations "a" MTranscribe
      (calls (stt.Client_Transcribe stt_stub.detour Background stt_stub.audio
                stt_stub.config world0).2) = 1.
Proof. repeat split. Qed.

(** C5, as the code has it.  The batch method never consults the
    caller's context; it only hands it to each provider.  When the
    attempts so far have all failed and the context is cancelled or past
    its deadline, the loop still goes on: the next resolving fallback is
    invoked, with the same context, in the world the failed attempts
    left. *)
Theorem C5_fallbacks_attempted_after_cancellation :
  (∀ (S : Type) (c : stt.Client S) ctx audio config w pre name post p,
     stt.fallbacks c = pre ++ name :: post ->
     stt.providers c !! name = Some p ->
     all_failed (stt_attempt_all c ctx audio config (stt.primary c :: pre) w).1 = true ->
     is_Some (ctx_Err ctx
                (ext (stt_attempt_all c ctx audio config (stt.primary c :: pre) w).2)) ->
     stt.Client_Transcribe c ctx audio config w
     = stt.Transcribe_fallbacks c ctx audio config (name :: post)
         (stt_attempt_all c ctx audio config (stt.primary c :: pre) w).2
     ∧ ∃ tail,
         calls (stt.Client_Transcribe c ctx audio config w).2
         = calls (stt_attempt_all c ctx audio config (stt.primary c :: pre) w).2
           ++ mkCall name MTranscribe :: tail)
  ∧
  (∀ (S : Type) (c : tts.Client S) ctx text config w pre name post p,
     tts.fallbacks c = pre ++ name :: post ->
     tts.providers c !! name = Some p ->
     all_failed (tts_attempt_all c ctx text config (tts.primary c :: pre) w).1 = true ->
     is_Some (ctx_Err ctx
                (ext (tts_attempt_all c ctx text config (tts.primary c :: pre) w).2)) ->
     tts.Client_Synthesize c ctx text config w
     = tts.Synthesize_fallbacks c ctx text config (name :: post)
         (tts_attempt_all c ctx text config (tts.primary c :: pre) w).2
     ∧ ∃ tail,
         calls (tts.Client_Synthesize c ctx text config w).2
         = calls (tts_attempt_all c ctx text config (tts.primary c :: pre) w).2
           ++ mkCall name MSynthesize :: tail).
Proof.
  split; intros S c ctx input config w pre name post p Hfb Hp Hfail _.
  - rewrite stt_Transcribe_first_success, stt_Transcribe_fallbacks_first_success.
    rewrite Hfb, app_comm_cons.
    apply (first_success_reaches _ _ _ _ _ _ _ p); done.
  - rewrite tts_Synthesize_first_success, tts_Synthesize_fallbacks_first_success.
    rewrite Hfb, app_comm_cons.
    apply (first_success_reaches _ _ _ _ _ _ _ p); done.
Qed.

(** The deadline passes during the call on the primary "a"; the fallback
    "b" is invoked next. *)
Lemma C5_witness :
  (is_Some (ctx_Err (deadline 1)
              (ext (stt_attempt_all stt_stub.timed (deadline 1) stt_stub.audio
                      stt_stub.config [stt.primary stt_stub.timed] world0).2))
   ∧ ∃ tail,
       calls (stt.Client_Transcribe stt_stub.timed (deadline 1) stt_stub.audio
                stt_stub.config world0).2
       = [mkCall "a" MTranscribe] ++ mkCall "b" MTranscribe :: tail)
  ∧
  (is_Some (ctx_Err (deadline 1)
              (ext (tts_attempt_all tts_stub.timed (deadline 1) "Hello"
                      tts_stub.config [tts.primary tts_stub.timed] world0).2))
   ∧ ∃ tail,
       calls (tts.Client_Synthesize tts_stub.timed (deadline 1) "Hello"
                tts_stub.config world0).2
       = [mkCall "a" MSynthesize] ++ mkCall "b" MSynthesize :: tail).
Proof.
  split; (split; [by eexists |]).
  - apply (proj1 C5_fallbacks_attempted_after_cancellation nat stt_stub.timed
             (deadline 1) stt_stub.audio stt_stub.config world0 [] "b" []
             (stt_stub.punctual "b")); try reflexivity.
    by eexists.
  - apply (proj2 C5_fallbacks_attempted_after_cancellation nat tts_stub.timed
             (deadline 1) "Hello" tts_stub.config world0 [] "b" []
             (tts_stub.punctual "b")); try reflexivity.
    by eexists.
Defined.

(** C5 as stated fails: the deadline of the context passes during the
    call on the primary "a", which reports it; the context is done when
    that attempt returns, and the fallback "b" is attempted all the same.
    The caller gets the no-available-provider error. *)
Lemma C5_counterexample :
  stt.Transcribe (stt_stub.punctual "a") (deadline 1) stt_stub.audio stt_stub.config 0
  = ((None, Some DeadlineExceeded), 1)
  ∧ ctx_Err (deadline 1) 1 = Some DeadlineExceeded
  ∧ stt.Client_Transcribe stt_stub.timed (deadline 1) stt_stub.audio stt_stub.config world0
    = ((None, Some stt.ErrNoAvailableProvider),
       {| ext := 2; calls := [mkCall "a" MTranscribe; mkCall "b" MTranscribe] |})
  ∧ tts.Client_Synthesize tts_stub.timed (deadline 1) "Hello" tts_stub.config world0
    = ((None, Some tts.ErrNoAvailableProvider),
       {| ext := 2; calls := [mkCall "a" MSynthesize; mkCall "b" MSynthesize] |}).
Proof. repeat split. Qed.

(** ** Streaming *)

Lemma stt_TranscribeStream_fallbacks_none {S : Type} (c : stt.Client S) ctx config
    names w :
  existsb (stt_streaming_capable c) names = false ->
  stt.TranscribeStream_fallbacks c ctx config names w
  = ((None, None, Some stt.ErrStreamingNotSupported), w).
Proof.
  induction names as [|name names IH]; intros Hnone; [done |].
  cbn in Hnone. apply orb_false_elim in Hnone as [Hname Hrest].
  unfold stt_streaming_capable in Hname. simpl.
  destruct (stt.providers c !! name) as [p|]; [| by apply IH].
  destruct (stt.TranscribeStream p); [done | by apply IH].
Qed.

(** In [stt], the first candidate that resolves to a streaming provider
    decides: what its [TranscribeStream] returns, error included, is
    what the client returns. *)
Lemma stt_TranscribeStream_primary_decides {S : Type} (c : stt.Client S) ctx config
    w p open :
  stt.providers c !! stt.primary c = Some p ->
  stt.TranscribeStream p = Some open ->
  stt.Client_TranscribeStream c ctx config w
  = invoke (stt.primary c) MTranscribeStream (open ctx config) w.
Proof. intros Hp Hopen. unfold stt.Client_TranscribeStream. by rewrite Hp, Hopen. Qed.

(** C3, as the code has it.  In [stt], a streaming request against a
    client whose candidate order holds no name resolving to a provider
    with the streaming capability fails with the
    streaming-not-supported error, and no provider is invoked.  In
    [tts], where the streaming method is part of the base provider
    contract and the package has no streaming-not-supported error, a
    streaming request against a client none of whose candidates resolves
    fails with the no-available-provider error, and no provider is
    invoked. *)
Theorem C3_no_streaming_candidate :
  (∀ (S : Type) (c : stt.Client S) ctx config w,
     existsb (stt_streaming_capable c) (stt_candidates c) = false ->
     stt.Client_TranscribeStream c ctx config w
     = ((None, None, Some stt.ErrStreamingNotSupported), w))
  ∧
  (∀ (S : Type) (c : tts.Client S) ctx text config w,
     existsb (tts_streaming_capable c) (tts_candidates c) = false ->
     tts.Client_SynthesizeStream c ctx text config w
     = ((None, Some tts.ErrNoAvailableProvider), w)).
Proof.
  split.
  - intros S c ctx config w Hnone.
    cbn in Hnone. apply orb_false_elim in Hnone as [Hprimary Hrest].
    unfold stt_streaming_capable in Hprimary. unfold stt.Client_TranscribeStream.
    destruct (stt.providers c !! stt.primary c) as [p|];
      [| by apply stt_TranscribeStream_fallbacks_none].
    destruct (stt.TranscribeStream p);
      [done | by apply stt_TranscribeStream_fallbacks_none].
  - intros S c ctx text config w Hnone.
    rewrite tts_SynthesizeStream_first_success. unfold tts_stream.
    rewrite first_success_resolving.
    assert (Hempty : resolving (tts.providers c) (tts.primary c :: tts.fallbacks c) = []).
    { unfold tts_candidates in Hnone.
      induction (tts.primary c :: tts.fallbacks c) as [|name names IH]; [done |].
      cbn in Hnone. apply orb_false_elim in Hnone as [Hname Hrest].
      unfold tts_streaming_capable in Hname.
      destruct (tts.providers c !! name) eqn:Hp; [done |].
      rewrite resolving_cons_None by done. by apply IH. }
    by rewrite Hempty.
Qed.

(** An [stt] client with two base providers, and the [tts] client
    without providers. *)
Lemma C3_witness :
  (existsb (stt_streaming_capable stt_stub.healthy) (stt_candidates stt_stub.healthy)
   = false
   ∧ stt.Client_TranscribeStream stt_stub.healthy Background stt_stub.config world0
     = ((None, None, Some stt.ErrStreamingNotSupported), world0))
  ∧
  (existsb (tts_streaming_capable tts_stub.empty) (tts_candidates tts_stub.empty) = false
   ∧ tts.Client_SynthesizeStream tts_stub.empty Background "Hello" tts_stub.config world0
     = ((None, Some tts.ErrNoAvailableProvider), world0)).
Proof.
  split; (split; [reflexivity |]).
  - apply (proj1 C3_no_streaming_candidate nat stt_stub.healthy Background
             stt_stub.config world0). reflexivity.
  - apply (proj2 C3_no_streaming_candidate nat tts_stub.empty Background "Hello"
             tts_stub.config world0). reflexivity.
Defined.

(** C3 as stated fails for [tts].  The client built by [NewClient()] has
    no candidate that resolves, hence none with the streaming
    capability; its [SynthesizeStream] fails with the
    no-available-provider error, which is not of the
    streaming-not-supported kind.  And the only provider of the client
    [lone] does not have the methods of [tts.StreamingProvider], yet
    [SynthesizeStream] invokes it. *)
Lemma C3_counterexample :
  existsb (tts_streaming_capable tts_stub.empty) (tts_candidates tts_stub.empty) = false
  ∧ tts.Client_SynthesizeStream tts_stub.empty Background "Hello" tts_stub.config world0
    = ((None, Some tts.ErrNoAvailableProvider), world0)
  ∧ error_kind tts.ErrNoAvailableProvider = NoAvailableProvider
  ∧ error_kind tts.ErrNoAvailableProvider ≠ StreamingNotSupported
  ∧ (∀ name p, tts.providers tts_stub.lone !! name = Some p ->
               tts.SynthesizeFromReader p = None)
  ∧ tts.Client_SynthesizeStream tts_stub.lone Background "Hello" tts_stub.config world0
    = ((None, Some tts.ErrNoAvailableProvider),
       {| ext := 1; calls := [mkCall "a" MSynthesizeStream] |}).
Proof.
  repeat split; try done.
  intros name p Hp. unfold tts_stub.lone, tts.NewClient in Hp. cbn in Hp.
  apply lookup_insert_Some in Hp as [[_ <-] | [_ Hp]]; [done |].
  by rewrite lookup_empty in Hp.
Qed.

(** C4.  Fallback at stream establishment, which the specification
    asks of both clients, is missing from [stt.Client.TranscribeStream].
    The primary "a" and the fallback "b" both have the streaming
    capability, "a" refuses to open a session and "b" would open one;
    the client returns the error of "a" to the caller and never attempts
    "b".  The sibling [tts.Client.SynthesizeStream], on the same
    arrangement, goes on to "b" and returns its stream. *)
Theorem C4_stt_stream_error_returned_without_fallback :
  existsb (stt_streaming_capable stt_stub.streamers) (stt.fallbacks stt_stub.streamers)
  = true
  ∧ stt.Client_TranscribeStream stt_stub.streamers Background stt_stub.config world0
    = ((None, None, Some (VendorError "a" "handshake failed")),
       {| ext := 1; calls := [mkCall "a" MTranscribeStream] |})
  ∧ stt.Client_TranscribeStream
      (stt.Client_SetPrimary stt_stub.streamers "b") Background stt_stub.config world0
    = ((Some (mkWriteCloser 7), Some (mkRecvChan 7), None),
       {| ext := 1; calls := [mkCall "b" MTranscribeStream] |})
  ∧ tts.Client_SynthesizeStream tts_stub.streamers Background "Hello" tts_stub.config
      world0
    = ((Some (mkRecvChan 7), None),
       {| ext := 2; calls := [mkCall "a" MSynthesizeStream;
                              mkCall "b" MSynthesizeStream] |}).
Proof. repeat split. Qed.

(** ** Construction and configuration *)

Section NewClient.
Context {S : Type}.

Lemma stt_NewClient_range_spec (ps : list (stt.Provider S)) :
  ∀ i c,
    stt.primary (stt.NewClient_range i ps c)
    = match i, ps with
      | 0, p :: _ => stt.Name p
      | _, _ => stt.primary c
      end
    ∧ stt.fallbacks (stt.NewClient_range i ps c)
      = stt.fallbacks c ++ (stt.Name <$> match i with 0 => tail ps | _ => ps end)
    ∧ ∀ name,
        stt.providers (stt.NewClient_range i ps c) !! name
        = match last (filter (fun q => stt.Name q = name) ps) with
          | Some q => Some q
          | None => stt.providers c !! name
          end.
Proof.
  induction ps as [|p ps IH]; intros i c.
  - destruct i; cbn; by rewrite app_nil_r.
  - cbn [stt.NewClient_range].
    match goal with
    | |- context [stt.NewClient_range _ ps ?c1] =>
        destruct (IH (Datatypes.S i) c1) as (Hprimary & Hfallbacks & Hproviders)
    end.
    rewrite Hprimary, Hfallbacks.
    split; [by destruct i |].
    split; [destruct i; cbn; [done | by rewrite <- app_assoc] |].
    intros name. rewrite Hproviders.
    destruct (decide (stt.Name p = name)) as [Heq | Hne].
    + rewrite filter_cons_True, last_cons by done.
      destruct (last (filter _ ps)); [done |].
      destruct i; cbn; by rewrite Heq, lookup_insert_eq.
    + rewrite filter_cons_False by done.
      destruct (last (filter _ ps)); [done |].
      destruct i; cbn; by rewrite lookup_insert_ne.
Qed.

Lemma tts_NewClient_range_spec (ps : list (tts.Provider S)) :
  ∀ i c,
    tts.primary (tts.NewClient_range i ps c)
    = match i, ps with
      | 0, p :: _ => tts.Name p
      | _, _ => tts.primary c
      end
    ∧ tts.fallbacks (tts.NewClient_range i ps c)
      = tts.fallbacks c ++ (tts.Name <$> match i with 0 => tail ps | _ => ps end)
    ∧ ∀ name,
        tts.providers (tts.NewClient_range i ps c) !! name
        = match last (filter (fun q => tts.Name q = name) ps) with
          | Some q => Some q
          | None => tts.providers c !! name
          end.
Proof.
  induction ps as [|p ps IH]; intros i c.
  - destruct i; cbn; by rewrite app_nil_r.
  - cbn [tts.NewClient_range].
    match goal with
    | |- context [tts.NewClient_range _ ps ?c1] =>
        destruct (IH (Datatypes.S i) c1) as (Hprimary & Hfallbacks & Hproviders)
    end.
    rewrite Hprimary, Hfallbacks.
    split; [by destruct i |].
    split; [destruct i; cbn; [done | by rewrite <- app_assoc] |].
    intros name. rewrite Hproviders.
    destruct (decide (tts.Name p = name)) as [Heq | Hne].
    + rewrite filter_cons_True, last_cons by done.
      destruct (last (filter _ ps)); [done |].
      destruct i; cbn; by rewrite Heq, lookup_insert_eq.
    + rewrite filter_cons_False by done.
      destruct (last (filter _ ps)); [done |].
      destruct i; cbn; by rewrite lookup_insert_ne.
Qed.
End NewClient.

(** C9.  [NewClient(p1, ..., pn)], n >= 1, makes the name of p1 the
    primary and the names of p2, ..., pn, in argument order, the
    fallbacks; it registers every provider under the name it reports,
    and where several arguments report one name, the registry holds the
    last of them under that name. *)
Theorem C9_NewClient_registers_in_order_last_wins :
  (∀ (S : Type) (p : stt.Provider S) (ps : list (stt.Provider S)),
     stt.primary (stt.NewClient (p :: ps)) = stt.Name p
     ∧ stt.fallbacks (stt.NewClient (p :: ps)) = stt.Name <$> ps
     ∧ ∀ name, stt.providers (stt.NewClient (p :: ps)) !! name
               = last (filter (fun q => stt.Name q = name) (p :: ps)))
  ∧
  (∀ (S : Type) (p : tts.Provider S) (ps : list (tts.Provider S)),
     tts.primary (tts.NewClient (p :: ps)) = tts.Name p
     ∧ tts.fallbacks (tts.NewClient (p :: ps)) = tts.Name <$> ps
     ∧ ∀ name, tts.providers (tts.NewClient (p :: ps)) !! name
               = last (filter (fun q => tts.Name q = name) (p :: ps))).
Proof.
  split; intros S p ps.
  - unfold stt.NewClient.
    destruct (stt_NewClient_range_spec (p :: ps) 0
                {| stt.providers := ∅; stt.primary := ""; stt.fallbacks := [] |})
      as (Hprimary & Hfallbacks & Hproviders).
    repeat split; [done | done |].
    intros name. rewrite Hproviders. cbn [stt.providers].
    destruct (last _); [done | apply lookup_empty].
  - unfold tts.NewClient.
    destruct (tts_NewClient_range_spec (p :: ps) 0
                {| tts.providers := ∅; tts.primary := ""; tts.fallbacks := [] |})
      as (Hprimary & Hfallbacks & Hproviders).
    repeat split; [done | done |].
    intros name. rewrite Hproviders. cbn [tts.providers].
    destruct (last _); [done | apply lookup_empty].
Qed.

(** Two arguments reporting the name "x": the registry keeps the last,
    and the name is both the primary and a fallback. *)
Example NewClient_collision :
  let first := stt_stub.base "x" (stt_stub.succeeds "first") in
  let other := stt_stub.base "y" (stt_stub.succeeds "other") in
  let last := stt_stub.base "x" (stt_stub.succeeds "last") in
  stt.primary (stt.NewClient [first; other; last]) = "x"
  ∧ stt.fallbacks (stt.NewClient [first; other; last]) = ["y"; "x"]
  ∧ stt.providers (stt.NewClient [first; other; last]) !! "x" = Some last.
Proof. repeat split. Qed.

Section Configuration.
Context {S : Type}.

Lemma stt_configure_providers (ks : list ConfigCall) :
  ∀ c : stt.Client S, stt.providers (foldl stt_configure c ks) = stt.providers c.
Proof.
  induction ks as [|k ks IH]; intros c; [done |].
  cbn. rewrite IH. by destruct k.
Qed.

Lemma tts_configure_providers (ks : list ConfigCall) :
  ∀ c : tts.Client S, tts.providers (foldl tts_configure c ks) = tts.providers c.
Proof.
  induction ks as [|k ks IH]; intros c; [done |].
  cbn. rewrite IH. by destruct k.
Qed.

Lemma stt_NewClient_primary_registered (ps : list (stt.Provider S)) :
  stt_primary_registered (stt.NewClient ps).
Proof.
  unfold stt_primary_registered, stt.NewClient.
  destruct (stt_NewClient_range_spec ps 0
              {| stt.providers := ∅; stt.primary := ""; stt.fallbacks := [] |})
    as (Hprimary & _ & Hproviders).
  rewrite Hprimary, Hproviders. destruct ps as [|p ps]; [done |].
  intros _. rewrite filter_cons_True, last_cons by done.
  by destruct (last _).
Qed.

Lemma tts_NewClient_primary_registered (ps : list (tts.Provider S)) :
  tts_primary_registered (tts.NewClient ps).
Proof.
  unfold tts_primary_registered, tts.NewClient.
  destruct (tts_NewClient_range_spec ps 0
              {| tts.providers := ∅; tts.primary := ""; tts.fallbacks := [] |})
    as (Hprimary & _ & Hproviders).
  rewrite Hprimary, Hproviders. destruct ps as [|p ps]; [done |].
  intros _. rewrite filter_cons_True, last_cons by done.
  by destruct (last _).
Qed.

Lemma stt_configure_preserves (c0 : stt.Client S) (ks : list ConfigCall) :
  ∀ c, stt.providers c = stt.providers c0 ->
       stt_primary_registered c ->
       Forall (stt_names_registered c0) ks ->
       stt_primary_registered (foldl stt_configure c ks).
Proof.
  induction ks as [|k ks IH]; intros c Hreg Hinv Hks; [done |].
  apply Forall_cons in Hks as [Hk Hks]. cbn. apply IH; [by destruct k | | done].
  destruct k as [name | names]; [| exact Hinv].
  unfold stt_primary_registered. cbn. rewrite Hreg.
  by destruct Hk as [-> | Hsome].
Qed.

Lemma tts_configure_preserves (c0 : tts.Client S) (ks : list ConfigCall) :
  ∀ c, tts.providers c = tts.providers c0 ->
       tts_primary_registered c ->
       Forall (tts_names_registered c0) ks ->
       tts_primary_registered (foldl tts_configure c ks).
Proof.
  induction ks as [|k ks IH]; intros c Hreg Hinv Hks; [done |].
  apply Forall_cons in Hks as [Hk Hks]. cbn. apply IH; [by destruct k | | done].
  destruct k as [name | names]; [| exact Hinv].
  unfold tts_primary_registered. cbn. rewrite Hreg.
  by destruct Hk as [-> | Hsome].
Qed.
End Configuration.

(** C8, as the code has it.  [NewClient] establishes the invariant that
    a non-empty primary names a registered provider, and [SetFallbacks]
    preserves it.  [SetPrimary] stores its argument unchecked, so the
    invariant holds after those sequences of [SetPrimary] and
    [SetFallbacks] calls in which every [SetPrimary] argument is empty
    or names a provider of the registry. *)
Theorem C8_primary_registered_when_SetPrimary_names_registered :
  (∀ (S : Type) (ps : list (stt.Provider S)) (ks : list ConfigCall),
     Forall (stt_names_registered (stt.NewClient ps)) ks ->
     stt_primary_registered (foldl stt_configure (stt.NewClient ps) ks))
  ∧
  (∀ (S : Type) (ps : list (tts.Provider S)) (ks : list ConfigCall),
     Forall (tts_names_registered (tts.NewClient ps)) ks ->
     tts_primary_registered (foldl tts_configure (tts.NewClient ps) ks)).
Proof.
  split; intros S ps ks Hks.
  - by apply (stt_configure_preserves (stt.NewClient ps));
      [| apply stt_NewClient_primary_registered |].
  - by apply (tts_configure_preserves (tts.NewClient ps));
      [| apply tts_NewClient_primary_registered |].
Qed.

(** A sequence of calls whose [SetPrimary] arguments are "b", the empty
    name and "a", all fine for the registry of [NewClient(a, b)]. *)
Lemma C8_witness :
  let stt_a := stt_stub.base "a" (stt_stub.succeeds "a") in
  let stt_b := stt_stub.base "b" (stt_stub.succeeds "b") in
  let tts_a := tts_stub.base "a" (tts_stub.succeeds "a") (tts_stub.opens 1) in
  let tts_b := tts_stub.base "b" (tts_stub.succeeds "b") (tts_stub.opens 2) in
  stt_primary_registered
    (foldl stt_configure (stt.NewClient [stt_a; stt_b])
       [SetFallbacks ["ghost"; "a"]; SetPrimary "b"; SetPrimary ""; SetPrimary "a"])
  ∧ tts_primary_registered
      (foldl tts_configure (tts.NewClient [tts_a; tts_b])
         [SetFallbacks ["ghost"; "a"]; SetPrimary "b"; SetPrimary ""; SetPrimary "a"]).
Proof.
  split.
  - apply (proj1 C8_primary_registered_when_SetPrimary_names_registered nat).
    repeat apply Forall_cons_2; try apply Forall_nil_2; cbn;
      (exact I) || (by left) || (right; by eexists).
  - apply (proj2 C8_primary_registered_when_SetPrimary_names_registered nat).
    repeat apply Forall_cons_2; try apply Forall_nil_2; cbn;
      (exact I) || (by left) || (right; by eexists).
Defined.

(** C8 as stated fails: after [NewClient(a, b)], whose primary "a" is
    registered, [SetPrimary("ghost")] leaves a non-empty primary that
    names no provider of the registry. *)
Lemma C8_counterexample :
  stt_primary_registered stt_stub.healthy
  ∧ stt.primary (foldl stt_configure stt_stub.healthy [SetPrimary "ghost"]) = "ghost"
  ∧ stt.providers (foldl stt_configure stt_stub.healthy [SetPrimary "ghost"]) !! "ghost"
    = None
  ∧ ¬ stt_primary_registered (foldl stt_configure stt_stub.healthy [SetPrimary "ghost"])
  ∧ ¬ tts_primary_registered (foldl tts_configure tts_stub.healthy [SetPrimary "ghost"]).
Proof.
  split; [apply stt_NewClient_primary_registered |].
  split; [done |]. split; [done |].
  split; intros Hinv; by destruct Hinv as [p Hp].
Qed.

(** ** Further properties of the fallback policy *)

Lemma invocations_cons_other name m c log :
  callee c ≠ name -> invocations name m (c :: log) = invocations name m log.
Proof.
  intros Hne. unfold invocations. rewrite filter_cons_False; [done |].
  by intros [Hcallee _].
Qed.

Section PolicyMore.
Context {S P R : Type}.
Variable registry : gmap string P.
Variable m : Method.
Variable exhausted : R * option error.

(** The first candidate whose attempt succeeds decides: after candidates
    whose attempts all failed, a resolving candidate whose call succeeds
    gives the result, and nothing listed after it is invoked. *)
Lemma first_success_wins (run : P -> S -> (R * option error) * S)
    (pre : list string) (name : string) (post : list string) (p : P)
    (w : World S) (result : R) (s2 : S) :
  registry !! name = Some p ->
  all_failed (attempt_all registry m run pre w).1 = true ->
  run p (ext (attempt_all registry m run pre w).2) = ((result, None), s2) ->
  first_success registry m run exhausted (pre ++ name :: post) w
  = ((result, None),
     {| ext := s2;
        calls := calls w ++ attempts_of m (resolving registry pre)
                 ++ [mkCall name m] |}).
Proof.
  intros Hp Hfail Hrun.
  rewrite first_success_past_failures by exact Hfail.
  rewrite (first_success_step _ _ _ _ name post p _ Hp), Hrun. cbn.
  by rewrite attempt_all_calls, <- app_assoc.
Qed.

(** The loop consults the providers it resolves and nothing else: two
    behaviours that agree on the providers of the listed names give the
    same run. *)
Lemma first_success_ext (run1 run2 : P -> S -> (R * option error) * S)
    (names : list string) :
  (∀ name p s, name ∈ names -> registry !! name = Some p -> run1 p s = run2 p s) ->
  ∀ w, first_success registry m run1 exhausted names w
       = first_success registry m run2 exhausted names w.
Proof.
  induction names as [|name names IH]; intros Hsame w; [done |].
  assert (Hrest : ∀ name' p s, name' ∈ names -> registry !! name' = Some p ->
                               run1 p s = run2 p s).
  { intros name' p s Hin. apply Hsame. by apply list_elem_of_further. }
  destruct (registry !! name) as [p|] eqn:Hp.
  - rewrite !(first_success_step _ _ _ _ name names p w Hp).
    rewrite (Hsame name p (ext w) (list_elem_of_here _ _) Hp).
    destruct ((run2 p (ext w)).1.2); [by apply IH | done].
  - rewrite !first_success_unresolved by done. by apply IH.
Qed.

(** No more attempts than names. *)
Lemma attempts_of_take_resolving_length (k : nat) (names : list string) :
  (length (attempts_of m (take k (resolving registry names))) ≤ length names)%nat.
Proof.
  unfold attempts_of, resolving. rewrite length_fmap, length_take.
  etrans; [apply Nat.le_min_r | apply length_filter].
Qed.

(** How often a name occurs among the attempts on the resolving names of
    a list: as often as it is listed, if it resolves, and never
    otherwise. *)
Lemma invocations_attempts_of (name : string) (names : list string) :
  invocations name m (attempts_of m (resolving registry names))
  = if decide (is_Some (registry !! name))
    then length (filter (fun n => n = name) names)
    else 0.
Proof.
  induction names as [|n names IH]; [by case_decide |].
  destruct (registry !! n) as [p|] eqn:Hn.
  - rewrite (resolving_cons_Some _ _ _ p Hn).
    change (attempts_of m (n :: resolving registry names))
      with (mkCall n m :: attempts_of m (resolving registry names)).
    destruct (decide (n = name)) as [-> | Hne].
    + rewrite invocations_cons_same, IH, Hn.
      rewrite decide_True by done. by rewrite filter_cons_True.
    + rewrite invocations_cons_other by done.
      rewrite IH. case_decide; [by rewrite filter_cons_False | done].
  - rewrite resolving_cons_None by done. rewrite IH.
    case_decide as Hname; [| done].
    rewrite filter_cons_False; [done |].
    intros ->. rewrite Hn in Hname. by destruct Hname.
Qed.
End PolicyMore.

(** ** Further properties of batch execution *)

(** X1.  The first candidate that succeeds wins, wherever it stands in
    the order primary-then-fallbacks: when the attempts on the resolving
    candidates before it all fail and its own call succeeds, the batch
    method returns its result with a nil error; each resolving candidate
    before it was called once, in order, then the winner, and no
    candidate after it is called. *)
Theorem X1_batch_first_success_wins :
  (∀ (S : Type) (c : stt.Client S) ctx audio config w pre name post p result s2,
     stt_candidates c = pre ++ name :: post ->
     stt.providers c !! name = Some p ->
     all_failed (stt_attempt_all c ctx audio config pre w).1 = true ->
     stt.Transcribe p ctx audio config
       (ext (stt_attempt_all c ctx audio config pre w).2) = ((result, None), s2) ->
     stt.Client_Transcribe c ctx audio config w
     = ((result, None),
        {| ext := s2;
           calls := calls w ++ attempts_of MTranscribe (resolving (stt.providers c) pre)
                    ++ [mkCall name MTranscribe] |}))
  ∧
  (∀ (S : Type) (c : tts.Client S) ctx text config w pre name post p result s2,
     tts_candidates c = pre ++ name :: post ->
     tts.providers c !! name = Some p ->
     all_failed (tts_attempt_all c ctx text config pre w).1 = true ->
     tts.Synthesize p ctx text config
       (ext (tts_attempt_all c ctx text config pre w).2) = ((result, None), s2) ->
     tts.Client_Synthesize c ctx text config w
     = ((result, None),
        {| ext := s2;
           calls := calls w ++ attempts_of MSynthesize (resolving (tts.providers c) pre)
                    ++ [mkCall name MSynthesize] |})).
Proof.
  split; intros S c ctx input config w pre name post p result s2 Hcand Hp Hfail Hrun.
  - rewrite stt_Transcribe_first_success. unfold stt_candidates in Hcand.
    rewrite Hcand. by apply (first_success_wins _ _ _ _ _ _ _ p).
  - rewrite tts_Synthesize_first_success. unfold tts_candidates in Hcand.
    rewrite Hcand. by apply (first_success_wins _ _ _ _ _ _ _ p).
Qed.

(** The primary "main" fails, "ghost" does not resolve, "real" wins. *)
Lemma X1_witness :
  (stt_candidates stt_stub.haunted = ["main"; "ghost"] ++ "real" :: []
   ∧ stt.Client_Transcribe stt_stub.haunted Background stt_stub.audio stt_stub.config
       world0
     = ((Some (stt_stub.heard "real"), None),
        {| ext := 2; calls := [mkCall "main" MTranscribe; mkCall "real" MTranscribe] |}))
  ∧
  (tts_candidates tts_stub.haunted = ["main"; "ghost"] ++ "real" :: []
   ∧ tts.Client_Synthesize tts_stub.haunted Background "Hello" tts_stub.config world0
     = ((Some (tts_stub.spoken "real"), None),
        {| ext := 2; calls := [mkCall "main" MSynthesize; mkCall "real" MSynthesize] |})).
Proof.
  split; (split; [reflexivity |]).
  - apply (proj1 X1_batch_first_success_wins nat stt_stub.haunted Background
             stt_stub.audio stt_stub.config world0 ["main"; "ghost"] "real" []
             (stt_stub.base "real" (stt_stub.succeeds "real"))); reflexivity.
  - apply (proj2 X1_batch_first_success_wins nat tts_stub.haunted Background
             "Hello" tts_stub.config world0 ["main"; "ghost"] "real" []
             (tts_stub.base "real" (tts_stub.succeeds "real") (tts_stub.opens 3)));
      reflexivity.
Defined.

(** X2.  Whatever the providers do, the provider calls of one batch call
    are batch calls on an initial segment of the resolving candidates,
    in candidate order: a provider that is registered but not listed is
    never called, no candidate is called out of turn, and there are at
    most one call more than there are fallbacks. *)
Theorem X2_batch_calls_follow_the_candidates :
  (∀ (S : Type) (c : stt.Client S) ctx audio config w,
     ∃ k,
       calls (stt.Client_Transcribe c ctx audio config w).2
       = calls w ++ attempts_of MTranscribe
                      (take k (resolving (stt.providers c) (stt_candidates c)))
       ∧ (length (calls (stt.Client_Transcribe c ctx audio config w).2)
          ≤ length (calls w) + 1 + length (stt.fallbacks c))%nat)
  ∧
  (∀ (S : Type) (c : tts.Client S) ctx text config w,
     ∃ k,
       calls (tts.Client_Synthesize c ctx text config w).2
       = calls w ++ attempts_of MSynthesize
                      (take k (resolving (tts.providers c) (tts_candidates c)))
       ∧ (length (calls (tts.Client_Synthesize c ctx text config w).2)
          ≤ length (calls w) + 1 + length (tts.fallbacks c))%nat).
Proof.
  split; intros S c ctx input config w.
  - rewrite stt_Transcribe_first_success.
    unfold stt_batch, stt_candidates, stt.BatchReturn.
    destruct (first_success_calls (stt.providers c) MTranscribe
                (fun p => stt.Transcribe p ctx input config)
                (None, Some stt.ErrNoAvailableProvider)
                (stt.primary c :: stt.fallbacks c) w) as [k Hk].
    exists k. split; [exact Hk |]. rewrite Hk, length_app.
    pose proof (attempts_of_take_resolving_length (stt.providers c) MTranscribe k
                  (stt.primary c :: stt.fallbacks c)) as Hlen.
    cbn [length] in Hlen. lia.
  - rewrite tts_Synthesize_first_success.
    unfold tts_batch, tts_candidates, tts.BatchReturn.
    destruct (first_success_calls (tts.providers c) MSynthesize
                (fun p => tts.Synthesize p ctx input config)
                (None, Some tts.ErrNoAvailableProvider)
                (tts.primary c :: tts.fallbacks c) w) as [k Hk].
    exists k. split; [exact Hk |]. rewrite Hk, length_app.
    pose proof (attempts_of_take_resolving_length (tts.providers c) MSynthesize k
                  (tts.primary c :: tts.fallbacks c)) as Hlen.
    cbn [length] in Hlen. lia.
Qed.

(** X3.  When every resolving candidate fails, each name is called
    exactly as often as it is listed in the order
    primary-then-fallbacks, repetitions counted, and a name that does
    not resolve is never called. *)
Theorem X3_all_fail_one_call_per_listing :
  (∀ (S : Type) (c : stt.Client S) ctx audio config w name,
     all_failed (stt_attempt_all c ctx audio config (stt_candidates c) w).1 = true ->
     invocations name MTranscribe (calls (stt.Client_Transcribe c ctx audio config w).2)
     = (invocations name MTranscribe (calls w)
        + if decide (is_Some (stt.providers c !! name))
          then length (filter (fun n => n = name) (stt_candidates c))
          else 0)%nat)
  ∧
  (∀ (S : Type) (c : tts.Client S) ctx text config w name,
     all_failed (tts_attempt_all c ctx text config (tts_candidates c) w).1 = true ->
     invocations name MSynthesize (calls (tts.Client_Synthesize c ctx text config w).2)
     = (invocations name MSynthesize (calls w)
        + if decide (is_Some (tts.providers c !! name))
          then length (filter (fun n => n = name) (tts_candidates c))
          else 0)%nat).
Proof.
  split; intros S c ctx input config w name Hfail.
  - rewrite stt_Transcribe_first_success. unfold stt_batch, stt_candidates.
    rewrite first_success_exhausted by exact Hfail. cbn [snd].
    by rewrite attempt_all_calls, invocations_app, invocations_attempts_of.
  - rewrite tts_Synthesize_first_success. unfold tts_batch, tts_candidates.
    rewrite first_success_exhausted by exact Hfail. cbn [snd].
    by rewrite attempt_all_calls, invocations_app, invocations_attempts_of.
Qed.

(** The failing "a" is the primary and two of the fallbacks: three
    calls; "ghost" is listed and never called. *)
Lemma X3_witness :
  (stt_candidates more_stubs.stt_echo = ["a"; "a"; "b"; "ghost"; "a"]
   ∧ invocations "a" MTranscribe
       (calls (stt.Client_Transcribe more_stubs.stt_echo Background stt_stub.audio
                 stt_stub.config world0).2) = 3
   ∧ invocations "ghost" MTranscribe
       (calls (stt.Client_Transcribe more_stubs.stt_echo Background stt_stub.audio
                 stt_stub.config world0).2) = 0)
  ∧
  (tts_candidates more_stubs.tts_echo = ["a"; "a"; "b"; "ghost"; "a"]
   ∧ invocations "a" MSynthesize
       (calls (tts.Client_Synthesize more_stubs.tts_echo Background "Hello"
                 tts_stub.config world0).2) = 3
   ∧ invocations "ghost" MSynthesize
       (calls (tts.Client_Synthesize more_stubs.tts_echo Background "Hello"
                 tts_stub.config world0).2) = 0).
Proof.
  split; (split; [reflexivity |]); split.
  - apply (proj1 X3_all_fail_one_call_per_listing nat more_stubs.stt_echo Background
             stt_stub.audio stt_stub.config world0 "a"). reflexivity.
  - apply (proj1 X3_all_fail_one_call_per_listing nat more_stubs.stt_echo Background
             stt_stub.audio stt_stub.config world0 "ghost"). reflexivity.
  - apply (proj2 X3_all_fail_one_call_per_listing nat more_stubs.tts_echo Background
             "Hello" tts_stub.config world0 "a"). reflexivity.
  - apply (proj2 X3_all_fail_one_call_per_listing nat more_stubs.tts_echo Background
             "Hello" tts_stub.config world0 "ghost"). reflexivity.
Defined.

(** ** The caller's context *)

Lemma stt_TranscribeStream_fallbacks_ext {S : Type} (c : stt.Client S) ctx1 ctx2
    config names :
  (∀ name p open s,
     name ∈ names -> stt.providers c !! name = Some p ->
     stt.TranscribeStream p = Some open ->
     open ctx1 config s = open ctx2 config s) ->
  ∀ w, stt.TranscribeStream_fallbacks c ctx1 config names w
       = stt.TranscribeStream_fallbacks c ctx2 config names w.
Proof.
  induction names as [|name names IH]; intros Hsame w; [done |].
  assert (Hrest : ∀ name' p open s,
            name' ∈ names -> stt.providers c !! name' = Some p ->
            stt.TranscribeStream p = Some open ->
            open ctx1 config s = open ctx2 config s).
  { intros name' p open s Hin. apply Hsame. by apply list_elem_of_further. }
  simpl. destruct (stt.providers c !! name) as [p|] eqn:Hp; [| by apply IH].
  destruct (stt.TranscribeStream p) as [open|] eqn:Hopen; [| by apply IH].
  rewrite !invoke_eq.
  by rewrite (Hsame name p open (ext w) (list_elem_of_here _ _) Hp Hopen).
Qed.

(** X4.  No client method consults the caller's context: the context
    reaches the outcome only through the providers it is handed to.  If
    the providers of the candidates behave alike under two contexts (for
    instance because they ignore it), each of the four methods returns
    the same values and makes the same calls under both, whether or not
    one of the contexts is cancelled. *)
Theorem X4_context_only_reaches_the_providers :
  (∀ (S : Type) (c : stt.Client S) ctx1 ctx2 audio config w,
     (∀ name p s, name ∈ stt_candidates c -> stt.providers c !! name = Some p ->
                  stt.Transcribe p ctx1 audio config s
                  = stt.Transcribe p ctx2 audio config s) ->
     stt.Client_Transcribe c ctx1 audio config w
     = stt.Client_Transcribe c ctx2 audio config w)
  ∧
  (∀ (S : Type) (c : stt.Client S) ctx1 ctx2 config w,
     (∀ name p open s,
        name ∈ stt_candidates c -> stt.providers c !! name = Some p ->
        stt.TranscribeStream p = Some open ->
        open ctx1 config s = open ctx2 config s) ->
     stt.Client_TranscribeStream c ctx1 config w
     = stt.Client_TranscribeStream c ctx2 config w)
  ∧
  (∀ (S : Type) (c : tts.Client S) ctx1 ctx2 text config w,
     (∀ name p s, name ∈ tts_candidates c -> tts.providers c !! name = Some p ->
                  tts.Synthesize p ctx1 text config s
                  = tts.Synthesize p ctx2 text config s) ->
     tts.Client_Synthesize c ctx1 text config w
     = tts.Client_Synthesize c ctx2 text config w)
  ∧
  (∀ (S : Type) (c : tts.Client S) ctx1 ctx2 text config w,
     (∀ name p s, name ∈ tts_candidates c -> tts.providers c !! name = Some p ->
                  tts.SynthesizeStream p ctx1 text config s
                  = tts.SynthesizeStream p ctx2 text config s) ->
     tts.Client_SynthesizeStream c ctx1 text config w
     = tts.Client_SynthesizeStream c ctx2 text config w).
Proof.
  split; [| split; [| split]].
  - intros S c ctx1 ctx2 audio config w Hsame.
    rewrite !stt_Transcribe_first_success. by apply first_success_ext.
  - intros S c ctx1 ctx2 config w Hsame. unfold stt.Client_TranscribeStream.
    assert (Hrest : ∀ name p open s,
              name ∈ stt.fallbacks c -> stt.providers c !! name = Some p ->
              stt.TranscribeStream p = Some open ->
              open ctx1 config s = open ctx2 config s).
    { intros name p open s Hin. apply Hsame. by apply list_elem_of_further. }
    destruct (stt.providers c !! stt.primary c) as [p|] eqn:Hp;
      [| by apply stt_TranscribeStream_fallbacks_ext].
    destruct (stt.TranscribeStream p) as [open|] eqn:Hopen;
      [| by apply stt_TranscribeStream_fallbacks_ext].
    rewrite !invoke_eq.
    by rewrite (Hsame (stt.primary c) p open (ext w) (list_elem_of_here _ _) Hp Hopen).
  - intros S c ctx1 ctx2 text config w Hsame.
    rewrite !tts_Synthesize_first_success. by apply first_success_ext.
  - intros S c ctx1 ctx2 text config w Hsame.
    rewrite !tts_SynthesizeStream_first_success. by apply first_success_ext.
Qed.

Ltac known_provider Hp :=
  cbn in Hp;
  repeat (apply lookup_insert_Some in Hp as [[_ <-] | [_ Hp]]; [done |]);
  by rewrite lookup_empty in Hp.

(** The stub providers ignore the context: a context that is never done
    and one whose deadline has passed give the same runs. *)
Lemma X4_witness :
  stt.Client_Transcribe stt_stub.broken Background stt_stub.audio stt_stub.config world0
  = stt.Client_Transcribe stt_stub.broken (deadline 0) stt_stub.audio stt_stub.config
      world0
  ∧ stt.Client_TranscribeStream stt_stub.streamers Background stt_stub.config world0
    = stt.Client_TranscribeStream stt_stub.streamers (deadline 0) stt_stub.config world0
  ∧ tts.Client_Synthesize tts_stub.broken Background "Hello" tts_stub.config world0
    = tts.Client_Synthesize tts_stub.broken (deadline 0) "Hello" tts_stub.config world0
  ∧ tts.Client_SynthesizeStream tts_stub.streamers Background "Hello" tts_stub.config
      world0
    = tts.Client_SynthesizeStream tts_stub.streamers (deadline 0) "Hello" tts_stub.config
        world0.
Proof.
  split; [| split; [| split]].
  - apply (proj1 X4_context_only_reaches_the_providers nat stt_stub.broken).
    intros name p s _ Hp. unfold stt_stub.broken, stt.NewClient in Hp.
    known_provider Hp.
  - apply (proj1 (proj2 X4_context_only_reaches_the_providers) nat stt_stub.streamers).
    intros name p open s _ Hp Hopen. unfold stt_stub.streamers, stt.NewClient in Hp.
    cbn in Hp.
    apply lookup_insert_Some in Hp as [[_ <-] | [_ Hp]];
      [by injection Hopen as <- |].
    apply lookup_insert_Some in Hp as [[_ <-] | [_ Hp]];
      [by injection Hopen as <- |].
    by rewrite lookup_empty in Hp.
  - apply (proj1 (proj2 (proj2 X4_context_only_reaches_the_providers)) nat
             tts_stub.broken).
    intros name p s _ Hp. unfold tts_stub.broken, tts.NewClient in Hp.
    known_provider Hp.
  - apply (proj2 (proj2 (proj2 X4_context_only_reaches_the_providers)) nat
             tts_stub.streamers).
    intros name p s _ Hp. unfold tts_stub.streamers, tts.NewClient in Hp.
    known_provider Hp.
Defined.

(** ** Further properties of streaming *)

Lemma stt_TranscribeStream_as_loop {S : Type} (c : stt.Client S) ctx config w :
  stt.Client_TranscribeStream c ctx config w
  = stt.TranscribeStream_fallbacks c ctx config (stt_candidates c) w.
Proof. reflexivity. Qed.

Lemma stt_TranscribeStream_fallbacks_first_capable {S : Type} (c : stt.Client S) ctx
    config pre name post p open :
  existsb (stt_streaming_capable c) pre = false ->
  stt.providers c !! name = Some p ->
  stt.TranscribeStream p = Some open ->
  ∀ w, stt.TranscribeStream_fallbacks c ctx config (pre ++ name :: post) w
       = invoke name MTranscribeStream (open ctx config) w.
Proof.
  intros Hpre Hp Hopen w. induction pre as [|n pre IH].
  - simpl. by rewrite Hp, Hopen.
  - cbn in Hpre. apply orb_false_elim in Hpre as [Hn Hpre].
    unfold stt_streaming_capable in Hn. simpl.
    destruct (stt.providers c !! n) as [q|]; [| by apply IH].
    destruct (stt.TranscribeStream q); [done | by apply IH].
Qed.

Lemma stt_TranscribeStream_fallbacks_cases {S : Type} (c : stt.Client S) ctx config
    names w :
  (existsb (stt_streaming_capable c) names = false
   ∧ stt.TranscribeStream_fallbacks c ctx config names w
     = ((None, None, Some stt.ErrStreamingNotSupported), w))
  ∨ ∃ name p open,
      name ∈ names ∧ stt.providers c !! name = Some p
      ∧ stt.TranscribeStream p = Some open
      ∧ stt.TranscribeStream_fallbacks c ctx config names w
        = invoke name MTranscribeStream (open ctx config) w.
Proof.
  induction names as [|n names IH]; [by left |].
  simpl. unfold stt_streaming_capable at 1.
  destruct (stt.providers c !! n) as [q|] eqn:Hq.
  - destruct (stt.TranscribeStream q) as [open|] eqn:Hopen.
    + right. exists n, q, open. by split; [apply list_elem_of_here |].
    + destruct IH as [Hnone | (name & p & open & Hin & Hp & Hopen' & Hrun)];
        [by left | right].
      exists name, p, open. by split; [apply list_elem_of_further |].
  - destruct IH as [Hnone | (name & p & open & Hin & Hp & Hopen' & Hrun)];
      [by left | right].
    exists name, p, open. by split; [apply list_elem_of_further |].
Qed.

(** X5.  [stt]'s [TranscribeStream] hands the request to the first
    candidate, in the order primary-then-fallbacks, that resolves to a
    provider with the streaming capability.  Candidates before it that
    do not resolve or resolve to a base provider are passed over without
    a call.  What that provider's [TranscribeStream] returns, writer,
    channel and error alike, is what the client returns, and that one
    call is the only provider call made. *)
Theorem X5_stt_stream_first_capable_candidate_decides :
  ∀ (S : Type) (c : stt.Client S) ctx config w pre name post p open,
    stt_candidates c = pre ++ name :: post ->
    existsb (stt_streaming_capable c) pre = false ->
    stt.providers c !! name = Some p ->
    stt.TranscribeStream p = Some open ->
    stt.Client_TranscribeStream c ctx config w
    = ((open ctx config (ext w)).1,
       {| ext := (open ctx config (ext w)).2;
          calls := calls w ++ [mkCall name MTranscribeStream] |}).
Proof.
  intros S c ctx config w pre name post p open Hcand Hpre Hp Hopen.
  rewrite stt_TranscribeStream_as_loop, Hcand.
  rewrite (stt_TranscribeStream_fallbacks_first_capable c ctx config pre name post p open)
    by done.
  apply invoke_eq.
Qed.

(** The base provider "a" and the unregistered "ghost" are passed over;
    the streaming provider "b" opens the session. *)
Lemma X5_witness :
  stt_candidates more_stubs.stt_mixed = ["a"; "ghost"] ++ "b" :: []
  ∧ existsb (stt_streaming_capable more_stubs.stt_mixed) ["a"; "ghost"] = false
  ∧ stt.Client_TranscribeStream more_stubs.stt_mixed Background stt_stub.config world0
    = ((Some (mkWriteCloser 7), Some (mkRecvChan 7), None),
       {| ext := 1; calls := [mkCall "b" MTranscribeStream] |}).
Proof.
  split; [reflexivity |]. split; [reflexivity |].
  apply (X5_stt_stream_first_capable_candidate_decides nat more_stubs.stt_mixed
           Background stt_stub.config world0 ["a"; "ghost"] "b" []
           (stt_stub.streaming "b" (stt_stub.succeeds "b") (stt_stub.opens 7))
           (fun _ _ n => (stt_stub.opens 7 n, Datatypes.S n)));
    reflexivity.
Defined.

(** X6.  One call of [stt]'s [TranscribeStream] ends in one of two ways.
    Either no candidate has the streaming capability: then it makes no
    provider call and fails with the streaming-not-supported error.  Or
    it makes exactly one provider call, a [TranscribeStream] call on a
    candidate with the capability, and returns what that call returned.
    It never calls a provider's batch method and never calls a second
    provider. *)
Theorem X6_stt_stream_no_call_or_one_stream_call :
  ∀ (S : Type) (c : stt.Client S) ctx config w,
    (existsb (stt_streaming_capable c) (stt_candidates c) = false
     ∧ stt.Client_TranscribeStream c ctx config w
       = ((None, None, Some stt.ErrStreamingNotSupported), w))
    ∨ ∃ name p open,
        name ∈ stt_candidates c
        ∧ stt.providers c !! name = Some p
        ∧ stt.TranscribeStream p = Some open
        ∧ stt.Client_TranscribeStream c ctx config w
          = ((open ctx config (ext w)).1,
             {| ext := (open ctx config (ext w)).2;
                calls := calls w ++ [mkCall name MTranscribeStream] |}).
Proof.
  intros S c ctx config w. rewrite stt_TranscribeStream_as_loop.
  destruct (stt_TranscribeStream_fallbacks_cases c ctx config (stt_candidates c) w)
    as [Hnone | (name & p & open & Hin & Hp & Hopen & Hrun)]; [by left | right].
  exists name, p, open. rewrite Hrun, invoke_eq. done.
Qed.

(** X7.  [tts]'s [SynthesizeStream] falls back when a stream cannot be
    opened: when the [SynthesizeStream] calls on the resolving
    candidates before some candidate all fail and the call on that
    candidate succeeds, the client returns its stream with a nil error;
    each resolving candidate before it was called once, in order, and no
    candidate after it is called. *)
Theorem X7_tts_stream_first_success_wins :
  ∀ (S : Type) (c : tts.Client S) ctx text config w pre name post p stream s2,
    tts_candidates c = pre ++ name :: post ->
    tts.providers c !! name = Some p ->
    all_failed (tts_stream_attempt_all c ctx text config pre w).1 = true ->
    tts.SynthesizeStream p ctx text config
      (ext (tts_stream_attempt_all c ctx text config pre w).2) = ((stream, None), s2) ->
    tts.Client_SynthesizeStream c ctx text config w
    = ((stream, None),
       {| ext := s2;
          calls := calls w
                   ++ attempts_of MSynthesizeStream (resolving (tts.providers c) pre)
                   ++ [mkCall name MSynthesizeStream] |}).
Proof.
  intros S c ctx text config w pre name post p stream s2 Hcand Hp Hfail Hrun.
  rewrite tts_SynthesizeStream_first_success. unfold tts_candidates in Hcand.
  rewrite Hcand. by apply (first_success_wins _ _ _ _ _ _ _ p).
Qed.

(** The primary "a" refuses to open a stream, the fallback "b" opens
    one. *)
Lemma X7_witness :
  tts_candidates tts_stub.streamers = ["a"] ++ "b" :: []
  ∧ tts.Client_SynthesizeStream tts_stub.streamers Background "Hello" tts_stub.config
      world0
    = ((Some (mkRecvChan 7), None),
       {| ext := 2;
          calls := [mkCall "a" MSynthesizeStream; mkCall "b" MSynthesizeStream] |}).
Proof.
  split; [reflexivity |].
  apply (X7_tts_stream_first_success_wins nat tts_stub.streamers Background "Hello"
           tts_stub.config world0 ["a"] "b" []
           (tts_stub.base "b" (tts_stub.succeeds "b") (tts_stub.opens 7)));
    reflexivity.
Defined.

(** X8.  When the [SynthesizeStream] call on every resolving candidate
    fails, [tts]'s [SynthesizeStream] returns a nil channel with the
    no-available-provider error, after one call on each resolving
    candidate in the order primary-then-fallbacks. *)
Theorem X8_tts_stream_all_fail_no_available_provider :
  ∀ (S : Type) (c : tts.Client S) ctx text config w,
    all_failed (tts_stream_attempt_all c ctx text config (tts_candidates c) w).1 = true ->
    (tts.Client_SynthesizeStream c ctx text config w).1
    = (None, Some tts.ErrNoAvailableProvider)
    ∧ calls (tts.Client_SynthesizeStream c ctx text config w).2
      = calls w ++ attempts_of MSynthesizeStream
                     (resolving (tts.providers c) (tts_candidates c)).
Proof.
  intros S c ctx text config w Hfail.
  rewrite tts_SynthesizeStream_first_success. unfold tts_stream.
  rewrite first_success_exhausted by exact Hfail.
  split; [done | apply attempt_all_calls].
Qed.

(** Three providers that all refuse to open a stream. *)
Lemma X8_witness :
  (tts.Client_SynthesizeStream tts_stub.broken Background "Hello" tts_stub.config
     world0).1 = (None, Some tts.ErrNoAvailableProvider)
  ∧ calls (tts.Client_SynthesizeStream tts_stub.broken Background "Hello"
             tts_stub.config world0).2
    = [mkCall "a" MSynthesizeStream; mkCall "b" MSynthesizeStream;
       mkCall "c" MSynthesizeStream].
Proof.
  apply (X8_tts_stream_all_fail_no_available_provider nat tts_stub.broken Background
           "Hello" tts_stub.config world0). reflexivity.
Defined.

(** X9.  Whatever the providers do, [tts]'s [SynthesizeStream] returns
    either a nil channel with the no-available-provider error, or, with
    a nil error, the channel that the [SynthesizeStream] call on a
    resolving candidate returned together with a nil error.  The error a
    provider fails with is never passed on to the caller, unlike in
    [stt]'s [TranscribeStream]. *)
Theorem X9_tts_stream_returns_stream_or_no_available_provider :
  ∀ (S : Type) (c : tts.Client S) ctx text config w,
    (tts.Client_SynthesizeStream c ctx text config w).1
    = (None, Some tts.ErrNoAvailableProvider)
    ∨ ∃ name p s stream,
        name ∈ tts_candidates c
        ∧ tts.providers c !! name = Some p
        ∧ (tts.SynthesizeStream p ctx text config s).1 = (stream, None)
        ∧ (tts.Client_SynthesizeStream c ctx text config w).1 = (stream, None).
Proof.
  intros S c ctx text config w.
  rewrite tts_SynthesizeStream_first_success. apply first_success_returns.
Qed.

(** ** Further properties of construction and configuration *)

Lemma filter_same_name_singleton {A : Type} (f : A -> string) (l : list A) (x : A) :
  NoDup (f <$> l) -> x ∈ l -> filter (fun y => f y = f x) l = [x].
Proof.
  induction l as [|y l IH]; intros Hnodup Hin; [by apply elem_of_nil in Hin |].
  rewrite fmap_cons in Hnodup. apply NoDup_cons in Hnodup as [Hfresh Hnodup].
  apply elem_of_cons in Hin as [-> | Hin].
  - rewrite filter_cons_True by done. f_equal.
    destruct (filter (fun z => f z = f y) l) as [|z rest] eqn:Hfilter; [done |].
    exfalso. assert (Hz : z ∈ filter (fun z => f z = f y) l).
    { rewrite Hfilter. apply list_elem_of_here. }
    apply list_elem_of_filter in Hz as [Hname Hz]. apply Hfresh.
    rewrite <- Hname. by apply list_elem_of_fmap_2.
  - rewrite filter_cons_False; [by apply IH |].
    intros Hname. apply Hfresh. rewrite Hname. by apply list_elem_of_fmap_2.
Qed.

Lemma resolving_all (P : Type) (registry : gmap string P) (names : list string) :
  (∀ name, name ∈ names -> is_Some (registry !! name)) ->
  resolving registry names = names.
Proof.
  induction names as [|name names IH]; intros Hall; [done |].
  destruct (Hall name (list_elem_of_here _ _)) as [p Hp].
  rewrite (resolving_cons_Some _ _ _ p Hp). f_equal. apply IH.
  intros name' Hin. apply Hall. by apply list_elem_of_further.
Qed.

Section NewClientMore.
Context {S : Type}.

Lemma stt_NewClient_lookup (ps : list (stt.Provider S)) (name : string) :
  stt.providers (stt.NewClient ps) !! name
  = last (filter (fun q => stt.Name q = name) ps).
Proof.
  unfold stt.NewClient.
  destruct (stt_NewClient_range_spec ps 0
              {| stt.providers := ∅; stt.primary := ""; stt.fallbacks := [] |})
    as (_ & _ & Hproviders).
  rewrite Hproviders. cbn [stt.providers].
  destruct (last _); [done | apply lookup_empty].
Qed.

Lemma stt_NewClient_candidates (p : stt.Provider S) (ps : list (stt.Provider S)) :
  stt_candidates (stt.NewClient (p :: ps)) = stt.Name <$> (p :: ps).
Proof.
  unfold stt_candidates, stt.NewClient.
  destruct (stt_NewClient_range_spec (p :: ps) 0
              {| stt.providers := ∅; stt.primary := ""; stt.fallbacks := [] |})
    as (Hprimary & Hfallbacks & _).
  by rewrite Hprimary, Hfallbacks.
Qed.

Lemma stt_NewClient_found (ps : list (stt.Provider S)) (name : string) :
  is_Some (stt.providers (stt.NewClient ps) !! name) ↔ name ∈ stt.Name <$> ps.
Proof.
  rewrite stt_NewClient_lookup. split.
  - intros [q Hq]. apply last_Some_elem_of, list_elem_of_filter in Hq as [<- Hq].
    by apply list_elem_of_fmap_2.
  - intros Hin. apply list_elem_of_fmap in Hin as (q & -> & Hq).
    destruct (last (filter (fun q0 => stt.Name q0 = stt.Name q) ps)) eqn:Hlast;
      [by eexists |].
    apply last_None in Hlast.
    assert (Hq' : q ∈ filter (fun q0 => stt.Name q0 = stt.Name q) ps)
      by by apply list_elem_of_filter.
    rewrite Hlast in Hq'. by apply elem_of_nil in Hq'.
Qed.

Lemma stt_NewClient_resolving (ps : list (stt.Provider S)) :
  resolving (stt.providers (stt.NewClient ps)) (stt_candidates (stt.NewClient ps))
  = stt.Name <$> ps.
Proof.
  destruct ps as [|p ps]; [done |].
  rewrite stt_NewClient_candidates. apply resolving_all.
  intros name Hin. by apply stt_NewClient_found.
Qed.

Lemma stt_NewClient_range_size (ps : list (stt.Provider S)) :
  ∀ i c,
    NoDup (stt.Name <$> ps) ->
    (∀ p, p ∈ ps -> stt.providers c !! stt.Name p = None) ->
    size (stt.providers (stt.NewClient_range i ps c))
    = (size (stt.providers c) + length ps)%nat.
Proof.
  induction ps as [|p ps IH]; intros i c Hnodup Hfresh; [cbn; lia |].
  rewrite fmap_cons in Hnodup. apply NoDup_cons in Hnodup as [Hp Hnodup].
  cbn [stt.NewClient_range]. rewrite IH; [| done |].
  - destruct i; cbn;
      rewrite map_size_insert_None by (apply Hfresh, list_elem_of_here); lia.
  - intros q Hq.
    assert (Hne : stt.Name p ≠ stt.Name q).
    { intros Heq. apply Hp. rewrite Heq. by apply list_elem_of_fmap_2. }
    destruct i; cbn; rewrite lookup_insert_ne by done;
      by apply Hfresh, list_elem_of_further.
Qed.

Lemma tts_NewClient_lookup (ps : list (tts.Provider S)) (name : string) :
  tts.providers (tts.NewClient ps) !! name
  = last (filter (fun q => tts.Name q = name) ps).
Proof.
  unfold tts.NewClient.
  destruct (tts_NewClient_range_spec ps 0
              {| tts.providers := ∅; tts.primary := ""; tts.fallbacks := [] |})
    as (_ & _ & Hproviders).
  rewrite Hproviders. cbn [tts.providers].
  destruct (last _); [done | apply lookup_empty].
Qed.

Lemma tts_NewClient_candidates (p : tts.Provider S) (ps : list (tts.Provider S)) :
  tts_candidates (tts.NewClient (p :: ps)) = tts.Name <$> (p :: ps).
Proof.
  unfold tts_candidates, tts.NewClient.
  destruct (tts_NewClient_range_spec (p :: ps) 0
              {| tts.providers := ∅; tts.primary := ""; tts.fallbacks := [] |})
    as (Hprimary & Hfallbacks & _).
  by rewrite Hprimary, Hfallbacks.
Qed.

Lemma tts_NewClient_found (ps : list (tts.Provider S)) (name : string) :
  is_Some (tts.providers (tts.NewClient ps) !! name) ↔ name ∈ tts.Name <$> ps.
Proof.
  rewrite tts_NewClient_lookup. split.
  - intros [q Hq]. apply last_Some_elem_of, list_elem_of_filter in Hq as [<- Hq].
    by apply list_elem_of_fmap_2.
  - intros Hin. apply list_elem_of_fmap in Hin as (q & -> & Hq).
    destruct (last (filter (fun q0 => tts.Name q0 = tts.Name q) ps)) eqn:Hlast;
      [by eexists |].
    apply last_None in Hlast.
    assert (Hq' : q ∈ filter (fun q0 => tts.Name q0 = tts.Name q) ps)
      by by apply list_elem_of_filter.
    rewrite Hlast in Hq'. by apply elem_of_nil in Hq'.
Qed.

Lemma tts_NewClient_resolving (ps : list (tts.Provider S)) :
  resolving (tts.providers (tts.NewClient ps)) (tts_candidates (tts.NewClient ps))
  = tts.Name <$> ps.
Proof.
  destruct ps as [|p ps]; [done |].
  rewrite tts_NewClient_candidates. apply resolving_all.
  intros name Hin. by apply tts_NewClient_found.
Qed.

Lemma tts_NewClient_range_size (ps : list (tts.Provider S)) :
  ∀ i c,
    NoDup (tts.Name <$> ps) ->
    (∀ p, p ∈ ps -> tts.providers c !! tts.Name p = None) ->
    size (tts.providers (tts.NewClient_range i ps c))
    = (size (tts.providers c) + length ps)%nat.
Proof.
  induction ps as [|p ps IH]; intros i c Hnodup Hfresh; [cbn; lia |].
  rewrite fmap_cons in Hnodup. apply NoDup_cons in Hnodup as [Hp Hnodup].
  cbn [tts.NewClient_range]. rewrite IH; [| done |].
  - destruct i; cbn;
      rewrite map_size_insert_None by (apply Hfresh, list_elem_of_here); lia.
  - intros q Hq.
    assert (Hne : tts.Name p ≠ tts.Name q).
    { intros Heq. apply Hp. rewrite Heq. by apply list_elem_of_fmap_2. }
    destruct i; cbn; rewrite lookup_insert_ne by done;
      by apply Hfresh, list_elem_of_further.
Qed.
End NewClientMore.

(** X10.  After [NewClient], [Provider(name)] finds a provider exactly
    when one of the arguments reports that name; the provider it finds
    is one of the arguments and reports the name asked for; and every
    name [NewClient] puts into the order primary-then-fallbacks resolves
    (for [NewClient()] the order holds no resolving name at all). *)
Theorem X10_NewClient_registers_what_it_lists :
  (∀ (S : Type) (ps : list (stt.Provider S)),
     (∀ name, is_Some (stt.Client_Provider (stt.NewClient ps) name)
              ↔ name ∈ stt.Name <$> ps)
     ∧ (∀ name q, stt.Client_Provider (stt.NewClient ps) name = Some q ->
                  stt.Name q = name ∧ q ∈ ps)
     ∧ resolving (stt.providers (stt.NewClient ps)) (stt_candidates (stt.NewClient ps))
       = stt.Name <$> ps)
  ∧
  (∀ (S : Type) (ps : list (tts.Provider S)),
     (∀ name, is_Some (tts.Client_Provider (tts.NewClient ps) name)
              ↔ name ∈ tts.Name <$> ps)
     ∧ (∀ name q, tts.Client_Provider (tts.NewClient ps) name = Some q ->
                  tts.Name q = name ∧ q ∈ ps)
     ∧ resolving (tts.providers (tts.NewClient ps)) (tts_candidates (tts.NewClient ps))
       = tts.Name <$> ps).
Proof.
  split.
  - intros S ps. split; [| split].
    + intros name. apply stt_NewClient_found.
    + intros name q Hq. unfold stt.Client_Provider in Hq.
      rewrite stt_NewClient_lookup in Hq.
      by apply last_Some_elem_of, list_elem_of_filter in Hq.
    + apply stt_NewClient_resolving.
  - intros S ps. split; [| split].
    + intros name. apply tts_NewClient_found.
    + intros name q Hq. unfold tts.Client_Provider in Hq.
      rewrite tts_NewClient_lookup in Hq.
      by apply last_Some_elem_of, list_elem_of_filter in Hq.
    + apply tts_NewClient_resolving.
Qed.

(** [NewClient(a, b)]: "b" is found, and it is the second argument. *)
Lemma X10_witness :
  is_Some (stt.Client_Provider stt_stub.healthy "b")
  ∧ (stt.Name (stt_stub.base "b" (stt_stub.succeeds "b")) = "b"
     ∧ stt_stub.base "b" (stt_stub.succeeds "b")
       ∈ [stt_stub.base "a" (stt_stub.succeeds "a");
          stt_stub.base "b" (stt_stub.succeeds "b")])
  ∧ is_Some (tts.Client_Provider tts_stub.healthy "b").
Proof.
  split; [| split].
  - apply (proj1 (proj1 X10_NewClient_registers_what_it_lists nat
                    [stt_stub.base "a" (stt_stub.succeeds "a");
                     stt_stub.base "b" (stt_stub.succeeds "b")]) "b").
    apply list_elem_of_further, list_elem_of_here.
  - apply (proj1 (proj2 (proj1 X10_NewClient_registers_what_it_lists nat
                           [stt_stub.base "a" (stt_stub.succeeds "a");
                            stt_stub.base "b" (stt_stub.succeeds "b")])) "b").
    reflexivity.
  - apply (proj1 (proj2 X10_NewClient_registers_what_it_lists nat
                    [tts_stub.base "a" (tts_stub.succeeds "a") (tts_stub.opens 1);
                     tts_stub.base "b" (tts_stub.succeeds "b") (tts_stub.opens 2)])
             "b").
    apply list_elem_of_further, list_elem_of_here.
Defined.

(** X11.  When the arguments of [NewClient] report pairwise distinct
    names, nothing is lost: [Provider] returns each argument under the
    name it reports, and the registry has as many entries as there were
    arguments. *)
Theorem X11_NewClient_distinct_names_round_trip :
  (∀ (S : Type) (ps : list (stt.Provider S)),
     NoDup (stt.Name <$> ps) ->
     (∀ p, p ∈ ps -> stt.Client_Provider (stt.NewClient ps) (stt.Name p) = Some p)
     ∧ size (stt.providers (stt.NewClient ps)) = length ps)
  ∧
  (∀ (S : Type) (ps : list (tts.Provider S)),
     NoDup (tts.Name <$> ps) ->
     (∀ p, p ∈ ps -> tts.Client_Provider (tts.NewClient ps) (tts.Name p) = Some p)
     ∧ size (tts.providers (tts.NewClient ps)) = length ps).
Proof.
  split.
  - intros S ps Hnodup. split.
    + intros p Hp. unfold stt.Client_Provider.
      by rewrite stt_NewClient_lookup, (filter_same_name_singleton stt.Name ps p).
    + unfold stt.NewClient. rewrite stt_NewClient_range_size; [| done |].
      * cbn [stt.providers]. by rewrite map_size_empty.
      * intros p _. apply lookup_empty.
  - intros S ps Hnodup. split.
    + intros p Hp. unfold tts.Client_Provider.
      by rewrite tts_NewClient_lookup, (filter_same_name_singleton tts.Name ps p).
    + unfold tts.NewClient. rewrite tts_NewClient_range_size; [| done |].
      * cbn [tts.providers]. by rewrite map_size_empty.
      * intros p _. apply lookup_empty.
Qed.

(** [NewClient(a, b)] with the distinct names "a" and "b". *)
Lemma X11_witness :
  NoDup ["a"; "b"]
  ∧ stt.Client_Provider stt_stub.healthy "a"
    = Some (stt_stub.base "a" (stt_stub.succeeds "a"))
  ∧ size (stt.providers stt_stub.healthy) = 2
  ∧ size (tts.providers tts_stub.healthy) = 2.
Proof.
  assert (Hnodup : NoDup ["a"; "b"]).
  { apply NoDup_cons. split; [by intros Hin; apply list_elem_of_singleton in Hin |].
    apply NoDup_singleton. }
  split; [exact Hnodup |]. split; [| split].
  - apply (proj1 (proj1 X11_NewClient_distinct_names_round_trip nat
                    [stt_stub.base "a" (stt_stub.succeeds "a");
                     stt_stub.base "b" (stt_stub.succeeds "b")] Hnodup)
             (stt_stub.base "a" (stt_stub.succeeds "a"))).
    apply list_elem_of_here.
  - apply (proj2 (proj1 X11_NewClient_distinct_names_round_trip nat
                    [stt_stub.base "a" (stt_stub.succeeds "a");
                     stt_stub.base "b" (stt_stub.succeeds "b")] Hnodup)).
  - apply (proj2 (proj2 X11_NewClient_distinct_names_round_trip nat
                    [tts_stub.base "a" (tts_stub.succeeds "a") (tts_stub.opens 1);
                     tts_stub.base "b" (tts_stub.succeeds "b") (tts_stub.opens 2)]
                    Hnodup)).
Defined.

(** X12.  A client fresh from [NewClient] tries its providers in
    argument order: when the arguments report pairwise distinct names,
    the calls on the arguments before some argument all fail and the
    call on that argument succeeds, the batch method returns that
    argument's result; the arguments before it were called once each, in
    argument order, and the ones after it are not called. *)
Theorem X12_NewClient_tries_arguments_in_order :
  (∀ (S : Type) (pre : list (stt.Provider S)) p post ctx audio config w result s2,
     NoDup (stt.Name <$> (pre ++ p :: post)) ->
     all_failed (stt_attempt_all (stt.NewClient (pre ++ p :: post)) ctx audio config
                   (stt.Name <$> pre) w).1 = true ->
     stt.Transcribe p ctx audio config
       (ext (stt_attempt_all (stt.NewClient (pre ++ p :: post)) ctx audio config
               (stt.Name <$> pre) w).2) = ((result, None), s2) ->
     stt.Client_Transcribe (stt.NewClient (pre ++ p :: post)) ctx audio config w
     = ((result, None),
        {| ext := s2;
           calls := calls w ++ attempts_of MTranscribe (stt.Name <$> pre)
                    ++ [mkCall (stt.Name p) MTranscribe] |}))
  ∧
  (∀ (S : Type) (pre : list (tts.Provider S)) p post ctx text config w result s2,
     NoDup (tts.Name <$> (pre ++ p :: post)) ->
     all_failed (tts_attempt_all (tts.NewClient (pre ++ p :: post)) ctx text config
                   (tts.Name <$> pre) w).1 = true ->
     tts.Synthesize p ctx text config
       (ext (tts_attempt_all (tts.NewClient (pre ++ p :: post)) ctx text config
               (tts.Name <$> pre) w).2) = ((result, None), s2) ->
     tts.Client_Synthesize (tts.NewClient (pre ++ p :: post)) ctx text config w
     = ((result, None),
        {| ext := s2;
           calls := calls w ++ attempts_of MSynthesize (tts.Name <$> pre)
                    ++ [mkCall (tts.Name p) MSynthesize] |})).
Proof.
  split.
  - intros S pre p post ctx audio config w result s2 Hnodup Hfail Hrun.
    assert (Hp : stt.providers (stt.NewClient (pre ++ p :: post)) !! stt.Name p
                 = Some p).
    { rewrite stt_NewClient_lookup, (filter_same_name_singleton stt.Name _ p);
        [done | done |].
      apply elem_of_app. right. apply list_elem_of_here. }
    assert (Hpre : resolving (stt.providers (stt.NewClient (pre ++ p :: post)))
                     (stt.Name <$> pre) = stt.Name <$> pre).
    { apply resolving_all. intros name Hin. apply stt_NewClient_found.
      rewrite fmap_app. apply elem_of_app. by left. }
    assert (Hcand : stt_candidates (stt.NewClient (pre ++ p :: post))
                    = (stt.Name <$> pre) ++ stt.Name p :: (stt.Name <$> post)).
    { destruct pre as [|q pre]; cbn [app]; rewrite stt_NewClient_candidates;
        [done |].
      by rewrite !fmap_cons, fmap_app. }
    rewrite stt_Transcribe_first_success. unfold stt_candidates in Hcand. rewrite Hcand.
    rewrite <- Hpre at 2.
    by apply (first_success_wins _ _ _ _ _ _ _ p).
  - intros S pre p post ctx text config w result s2 Hnodup Hfail Hrun.
    assert (Hp : tts.providers (tts.NewClient (pre ++ p :: post)) !! tts.Name p
                 = Some p).
    { rewrite tts_NewClient_lookup, (filter_same_name_singleton tts.Name _ p);
        [done | done |].
      apply elem_of_app. right. apply list_elem_of_here. }
    assert (Hpre : resolving (tts.providers (tts.NewClient (pre ++ p :: post)))
                     (tts.Name <$> pre) = tts.Name <$> pre).
    { apply resolving_all. intros name Hin. apply tts_NewClient_found.
      rewrite fmap_app. apply elem_of_app. by left. }
    assert (Hcand : tts_candidates (tts.NewClient (pre ++ p :: post))
                    = (tts.Name <$> pre) ++ tts.Name p :: (tts.Name <$> post)).
    { destruct pre as [|q pre]; cbn [app]; rewrite tts_NewClient_candidates;
        [done |].
      by rewrite !fmap_cons, fmap_app. }
    rewrite tts_Synthesize_first_success. unfold tts_candidates in Hcand. rewrite Hcand.
    rewrite <- Hpre at 2.
    by apply (first_success_wins _ _ _ _ _ _ _ p).
Qed.

(** X13.  When every call fails, a client fresh from [NewClient] has
    called one provider per argument, in argument order, under the names
    the arguments report, before it returns the no-available-provider
    error; arguments that share a name are each counted.  [NewClient()]
    fails without any call. *)
Theorem X13_NewClient_all_fail_one_call_per_argument :
  (∀ (S : Type) (ps : list (stt.Provider S)) ctx audio config w,
     all_failed (stt_attempt_all (stt.NewClient ps) ctx audio config
                   (stt_candidates (stt.NewClient ps)) w).1 = true ->
     (stt.Client_Transcribe (stt.NewClient ps) ctx audio config w).1
     = (None, Some stt.ErrNoAvailableProvider)
     ∧ calls (stt.Client_Transcribe (stt.NewClient ps) ctx audio config w).2
       = calls w ++ attempts_of MTranscribe (stt.Name <$> ps))
  ∧
  (∀ (S : Type) (ps : list (tts.Provider S)) ctx text config w,
     all_failed (tts_attempt_all (tts.NewClient ps) ctx text config
                   (tts_candidates (tts.NewClient ps)) w).1 = true ->
     (tts.Client_Synthesize (tts.NewClient ps) ctx text config w).1
     = (None, Some tts.ErrNoAvailableProvider)
     ∧ calls (tts.Client_Synthesize (tts.NewClient ps) ctx text config w).2
       = calls w ++ attempts_of MSynthesize (tts.Name <$> ps)).
Proof.
  split.
  - intros S ps ctx audio config w Hfail.
    rewrite stt_Transcribe_first_success. unfold stt_batch.
    rewrite first_success_exhausted by exact Hfail.
    split; [done |]. cbn [snd].
    rewrite attempt_all_calls. f_equal. f_equal. apply stt_NewClient_resolving.
  - intros S ps ctx text config w Hfail.
    rewrite tts_Synthesize_first_success. unfold tts_batch.
    rewrite first_success_exhausted by exact Hfail.
    split; [done |]. cbn [snd].
    rewrite attempt_all_calls. f_equal. f_equal. apply tts_NewClient_resolving.
Qed.

(** [NewClient(a, b, c)], every provider failing. *)
Lemma X13_witness :
  calls (stt.Client_Transcribe stt_stub.broken Background stt_stub.audio stt_stub.config
           world0).2
  = [mkCall "a" MTranscribe; mkCall "b" MTranscribe; mkCall "c" MTranscribe]
  ∧ calls (tts.Client_Synthesize tts_stub.broken Background "Hello" tts_stub.config
             world0).2
    = [mkCall "a" MSynthesize; mkCall "b" MSynthesize; mkCall "c" MSynthesize].
Proof.
  split.
  - apply (proj1 X13_NewClient_all_fail_one_call_per_argument nat
             [stt_stub.base "a" (stt_stub.fails stt.ErrRateLimited);
              stt_stub.base "b" (stt_stub.fails (VendorError "b" "503"));
              stt_stub.base "c" (stt_stub.fails stt.ErrInvalidAudio)]
             Background stt_stub.audio stt_stub.config world0). reflexivity.
  - apply (proj2 X13_NewClient_all_fail_one_call_per_argument nat
             [tts_stub.base "a" (tts_stub.fails tts.ErrRateLimited)
                (tts_stub.refuses tts.ErrRateLimited);
              tts_stub.base "b" (tts_stub.fails (VendorError "b" "503"))
                (tts_stub.refuses (VendorError "b" "503"));
              tts_stub.base "c" (tts_stub.fails tts.ErrInvalidConfig)
                (tts_stub.refuses tts.ErrInvalidConfig)]
             Background "Hello" tts_stub.config world0). reflexivity.
Defined.

(** [NewClient(main, real)]: "main" fails, "real" serves the request. *)
Lemma X12_witness :
  NoDup ["main"; "real"]
  ∧ stt.Client_Transcribe
      (stt.NewClient [stt_stub.base "main" (stt_stub.fails stt.ErrQuotaExceeded);
                      stt_stub.base "real" (stt_stub.succeeds "real")])
      Background stt_stub.audio stt_stub.config world0
    = ((Some (stt_stub.heard "real"), None),
       {| ext := 2; calls := [mkCall "main" MTranscribe; mkCall "real" MTranscribe] |})
  ∧ tts.Client_Synthesize
      (tts.NewClient [tts_stub.base "main" (tts_stub.fails tts.ErrQuotaExceeded)
                        (tts_stub.refuses tts.ErrQuotaExceeded);
                      tts_stub.base "real" (tts_stub.succeeds "real") (tts_stub.opens 3)])
      Background "Hello" tts_stub.config world0
    = ((Some (tts_stub.spoken "real"), None),
       {| ext := 2; calls := [mkCall "main" MSynthesize; mkCall "real" MSynthesize] |}).
Proof.
  assert (Hnodup : NoDup ["main"; "real"]).
  { apply NoDup_cons. split; [by intros Hin; apply list_elem_of_singleton in Hin |].
    apply NoDup_singleton. }
  split; [exact Hnodup |]. split.
  - apply (proj1 X12_NewClient_tries_arguments_in_order nat
             [stt_stub.base "main" (stt_stub.fails stt.ErrQuotaExceeded)]
             (stt_stub.base "real" (stt_stub.succeeds "real")) []
             Background stt_stub.audio stt_stub.config world0);
      [exact Hnodup | reflexivity | reflexivity].
  - apply (proj2 X12_NewClient_tries_arguments_in_order nat
             [tts_stub.base "main" (tts_stub.fails tts.ErrQuotaExceeded)
                (tts_stub.refuses tts.ErrQuotaExceeded)]
             (tts_stub.base "real" (tts_stub.succeeds "real") (tts_stub.opens 3)) []
             Background "Hello" tts_stub.config world0);
      [exact Hnodup | reflexivity | reflexivity].
Defined.

Section ConfigurationMore.
Context {S : Type}.

Lemma stt_configure_last_write (ks : list ConfigCall) :
  ∀ c : stt.Client S,
    stt.primary (foldl stt_configure c ks) = last_or primary_of ks (stt.primary c)
    ∧ stt.fallbacks (foldl stt_configure c ks)
      = last_or fallbacks_of ks (stt.fallbacks c).
Proof.
  unfold last_or. induction ks as [|k ks IH]; intros c; [done |].
  cbn [foldl]. destruct (IH (stt_configure c k)) as [Hprimary Hfallbacks].
  rewrite Hprimary, Hfallbacks.
  destruct k as [name | names]; cbn [omap list_omap primary_of fallbacks_of];
    rewrite ?last_cons; cbn;
    (split; [destruct (last (omap primary_of ks))
            | destruct (last (omap fallbacks_of ks))]; done).
Qed.

Lemma tts_configure_last_write (ks : list ConfigCall) :
  ∀ c : tts.Client S,
    tts.primary (foldl tts_configure c ks) = last_or primary_of ks (tts.primary c)
    ∧ tts.fallbacks (foldl tts_configure c ks)
      = last_or fallbacks_of ks (tts.fallbacks c).
Proof.
  unfold last_or. induction ks as [|k ks IH]; intros c; [done |].
  cbn [foldl]. destruct (IH (tts_configure c k)) as [Hprimary Hfallbacks].
  rewrite Hprimary, Hfallbacks.
  destruct k as [name | names]; cbn [omap list_omap primary_of fallbacks_of];
    rewrite ?last_cons; cbn;
    (split; [destruct (last (omap primary_of ks))
            | destruct (last (omap fallbacks_of ks))]; done).
Qed.
End ConfigurationMore.

(** X14.  [SetPrimary] and [SetFallbacks] overwrite and do nothing else.
    After any sequence of such calls the registry is the one the client
    had, so [Provider] finds what it found before; the primary is the
    argument of the last [SetPrimary], or unchanged if there was none;
    and the fallback list is the argument of the last [SetFallbacks]
    (replaced, not extended), or unchanged if there was none. *)
Theorem X14_configuration_last_write_wins :
  (∀ (S : Type) (c : stt.Client S) (ks : list ConfigCall),
     (∀ name, stt.Client_Provider (foldl stt_configure c ks) name
              = stt.Client_Provider c name)
     ∧ stt.primary (foldl stt_configure c ks) = last_or primary_of ks (stt.primary c)
     ∧ stt.fallbacks (foldl stt_configure c ks)
       = last_or fallbacks_of ks (stt.fallbacks c))
  ∧
  (∀ (S : Type) (c : tts.Client S) (ks : list ConfigCall),
     (∀ name, tts.Client_Provider (foldl tts_configure c ks) name
              = tts.Client_Provider c name)
     ∧ tts.primary (foldl tts_configure c ks) = last_or primary_of ks (tts.primary c)
     ∧ tts.fallbacks (foldl tts_configure c ks)
       = last_or fallbacks_of ks (tts.fallbacks c)).
Proof.
  split; intros S c ks.
  - split; [| apply stt_configure_last_write].
    intros name. unfold stt.Client_Provider. by rewrite stt_configure_providers.
  - split; [| apply tts_configure_last_write].
    intros name. unfold tts.Client_Provider. by rewrite tts_configure_providers.
Qed.

(** ** The options of package [callsystem] *)

(** X15.  What a list of options leaves in the options struct, when the
    options are called on it one after the other: each valued field
    holds the argument of the last option given for it, or what it held
    before if there was none; machine detection, recording and muting
    are on exactly when they were on before or their option is in the
    list.  No option turns a flag off, and no option touches a field
    other than its own. *)
Theorem X15_options_last_wins_flags_stick :
  (∀ (AgentConfig : Type) (ks : list (callsystem.CallOptionCall AgentConfig))
     (o : callsystem.callOptions AgentConfig),
     callsystem.apply_call_options ks o
     = {| callsystem.from := last_or callsystem.from_of ks (callsystem.from o);
          callsystem.timeout :=
            last_or callsystem.timeout_of ks (callsystem.timeout o);
          callsystem.machineDetect :=
            callsystem.machineDetect o || existsb callsystem.is_machineDetection ks;
          callsystem.record :=
            callsystem.record o || existsb callsystem.is_recording ks;
          callsystem.whisper :=
            last_or callsystem.whisper_of ks (callsystem.whisper o);
          callsystem.agentConfig :=
            last_or callsystem.agent_of ks (callsystem.agentConfig o);
          callsystem.statusCallback :=
            last_or callsystem.statusCallback_of ks (callsystem.statusCallback o) |})
  ∧
  (∀ (AgentConfig : Type) (ks : list (callsystem.MeetingOptionCall AgentConfig))
     (o : callsystem.meetingOptions AgentConfig),
     callsystem.apply_meeting_options ks o
     = {| callsystem.displayName :=
            last_or callsystem.displayName_of ks (callsystem.displayName o);
          callsystem.muted := callsystem.muted o || existsb callsystem.is_muted ks;
          callsystem.meeting_agentConfig :=
            last_or callsystem.meeting_agent_of ks
              (callsystem.meeting_agentConfig o) |}).
Proof.
  split; intros AgentConfig ks.
  - unfold callsystem.apply_call_options, last_or.
    induction ks as [|k ks IH]; intros o.
    + destruct o. cbn. by rewrite !orb_false_r.
    + cbn [foldl]. rewrite IH.
      destruct k; cbn; rewrite ?last_cons; f_equal;
        try (by rewrite ?orb_true_r);
        match goal with |- context [last ?l] => by destruct (last l) end.
  - unfold callsystem.apply_meeting_options, last_or.
    induction ks as [|k ks IH]; intros o.
    + destruct o. cbn. by rewrite !orb_false_r.
    + cbn [foldl]. rewrite IH.
      destruct k; cbn; rewrite ?last_cons; f_equal;
        try (by rewrite ?orb_true_r);
        match goal with |- context [last ?l] => by destruct (last l) end.
Qed.

(** X16.  Two call options that write different fields can be given in
    either order; of two options that write the same field, the one
    called later decides and the earlier one leaves no trace. *)
Theorem X16_call_options_commute_or_override :
  ∀ (AgentConfig : Type) (k1 k2 : callsystem.CallOptionCall AgentConfig)
    (o : callsystem.callOptions AgentConfig),
    (callsystem.call_field k1 ≠ callsystem.call_field k2 ->
     callsystem.call_option k1 (callsystem.call_option k2 o)
     = callsystem.call_option k2 (callsystem.call_option k1 o))
    ∧ (callsystem.call_field k1 = callsystem.call_field k2 ->
       callsystem.call_option k2 (callsystem.call_option k1 o)
       = callsystem.call_option k2 o).
Proof.
  intros AgentConfig k1 k2 o.
  split; intros Hfield; destruct k1, k2; cbn in Hfield; done.
Qed.

(** A caller id and a timeout in either order; two caller ids. *)
Lemma X16_witness :
  callsystem.WithFrom "+15551234567"
    (callsystem.WithTimeout 30000000000%Z more_stubs.call_defaults)
  = callsystem.WithTimeout 30000000000%Z
      (callsystem.WithFrom "+15551234567" more_stubs.call_defaults)
  ∧ callsystem.WithFrom "+15557654321"
      (callsystem.WithFrom "+15551234567" more_stubs.call_defaults)
    = callsystem.WithFrom "+15557654321" more_stubs.call_defaults.
Proof.
  split.
  - apply (proj1 (X16_call_options_commute_or_override nat
                    (callsystem.CallWithFrom "+15551234567")
                    (callsystem.CallWithTimeout 30000000000%Z)
                    more_stubs.call_defaults)).
    discriminate.
  - apply (proj2 (X16_call_options_commute_or_override nat
                    (callsystem.CallWithFrom "+15551234567")
                    (callsystem.CallWithFrom "+15557654321")
                    more_stubs.call_defaults)).
    reflexivity.
Defined.
